(** * smartclient: host pool, circuit breakers and the retry loop

    A shallow embedding of [smartclient/service.py], [smartclient/breaker.py]
    and [smartclient/client.py].  Python objects become records, dictionaries
    become finite maps, exceptions become an error result, and the effects of
    the retry loop (clock, sleeping, the wrapped call, logging) are threaded
    explicitly: every effectful function takes the environment it runs in and
    returns the environment it leaves, together with the events it produced. *)

From Stdlib Require Import ZArith List Bool Lia.
From stdpp Require Import base option list gmap strings pretty.

Open Scope Z_scope.

(** ** Python values and exceptions *)

(** The values that occur in host configurations (decoded JSON), in keyword
    arguments and as results of wrapped calls.  Floating point numbers are
    left out. *)
Inductive Value : Type :=
| VNone
| VBool (b : bool)
| VInt (n : Z)
| VStr (s : string).

#[global] Instance Value_eq_dec : EqDecision Value.
Proof. solve_decision. Defined.

(** Exception classes.  The class hierarchy is flat in this model: the
    classes of [smartclient/exceptions.py], the built-in errors the code can
    raise, [CircuitOpenError] of the [circuit] package, and [OtherError] for
    the classes of the client library behind the wrapped call. *)
Inductive Exc : Type :=
| NoHostsAvailableException
| AllHostsUnreachableException
| MaxRetriesReached
| CircuitOpenError
| StopIteration
| KeyError (key : string)
| AttributeError (attr : string)
| NameError (name : string)
| TypeError
| IOError
| OtherError (kind : string).

#[global] Instance Exc_eq_dec : EqDecision Exc.
Proof. solve_decision. Defined.

(** The outcome of a call: a returned value or a raised exception. *)
Inductive Result (A : Type) : Type :=
| Ret (a : A)
| Raise (e : Exc).
Arguments Ret {A} a.
Arguments Raise {A} e.

Definition is_raise {A} (r : Result A) : bool :=
  match r with Raise _ => true | Ret _ => false end.

(** [x == 0] on Python values: [False == 0] holds, a string or [None] never
    equals [0]. *)
Definition py_eq_zero (v : Value) : bool :=
  match v with
  | VInt n => n =? 0
  | VBool b => negb b
  | VNone | VStr _ => false
  end.

(** [str(x)], as used by [str.format]. *)
Definition py_str (v : Value) : string :=
  match v with
  | VNone => "None"
  | VBool true => "True"
  | VBool false => "False"
  | VInt n => pretty n
  | VStr s => s
  end.

(** Truth value of an object in a condition. *)
Definition truthy (v : Value) : bool :=
  match v with
  | VNone => false
  | VBool b => b
  | VInt n => negb (n =? 0)
  | VStr s => negb (String.eqb s "")
  end.

(** ** Host configurations and hostname rendering ([service.py]) *)

(** A host configuration is the dictionary decoded from a registry node. *)
Abbreviation Config := (gmap string Value).

(** [d[k]]: a missing key raises [KeyError]. *)
Definition getitem (d : Config) (k : string) : Result Value :=
  match d !! k with
  | Some v => Ret v
  | None => Raise (KeyError k)
  end.

(** [d.get(k, default)]. *)
Definition dict_get (d : Config) (k : string) (dflt : Value) : Value :=
  default dflt (d !! k).

(** [default_hostname_adapter(config)].  The secure port is read first; the
    plain port is looked up only when the secure one is missing or equal to
    zero; the address is looked up while the result is formatted, after the
    scheme has been chosen. *)
Definition default_hostname_adapter (config : Config) : Result string :=
  let port := dict_get config "sslPort" (VInt 0) in
  match (if py_eq_zero port then getitem config "port" else Ret port) with
  | Raise e => Raise e
  | Ret port =>
      let scheme :=
        if negb (py_eq_zero (dict_get config "sslPort" (VInt 0)))
        then "https" else "http" in
      match getitem config "address" with
      | Raise e => Raise e
      | Ret address =>
          Ret (scheme +:+ "://" +:+ py_str address +:+ ":" +:+ py_str port)
      end
  end.

(** ** The runtime the client runs in *)

(** Everything outside the client: the wall clock, the random generator, the
    registry and the services behind the wrapped call live in an environment
    [Env].  [time_time] is [time.time()], [time_sleep] the effect of
    [time.sleep(d)] for a delay [d >= 0], [random_shuffle] the in-place
    [random.shuffle] of a list of host configurations. *)
Class Runtime : Type := {
  Env : Type;
  time_time : Env → Z;
  time_sleep : Z → Env → Env;
  random_shuffle : list Config → Env → list Config * Env;
}.

(** ** [itertools.cycle] and [UpdateableIterator] ([service.py]) *)

(** [itertools.cycle(items)] over a list that is not mutated afterwards: the
    saved items and the position of the next one.  Over an empty list the
    first [next] raises [StopIteration]. *)
Record cycle (A : Type) : Type := mkCycle {
  saved : list A;
  pos : nat;
}.
Arguments mkCycle {A} saved pos.
Arguments saved {A} c.
Arguments pos {A} c.

Definition it_cycle {A} (items : list A) : cycle A := mkCycle items 0.

Definition cycle_next {A} (c : cycle A) : Result A * cycle A :=
  match saved c !! pos c with
  | Some x =>
      (Ret x,
       mkCycle (saved c)
               (if (S (pos c) =? length (saved c))%nat then 0%nat else S (pos c)))
  | None => (Raise StopIteration, c)
  end.

Record UpdateableIterator : Type := mkUpdateableIterator {
  items : list Config;
  _iter : cycle Config;
  _stop_exc : Exc;
}.

(** [UpdateableIterator(items, stop_exc)]. *)
Definition UpdateableIterator_init (its : list Config) (stop_exc : Exc)
  : UpdateableIterator :=
  mkUpdateableIterator its (it_cycle its) stop_exc.

(** [modify(items)]: the cycle is rebuilt over the new list. *)
Definition modify (u : UpdateableIterator) (its : list Config)
  : UpdateableIterator :=
  mkUpdateableIterator its (it_cycle its) (_stop_exc u).

(** [next()]: [StopIteration] of the cycle is replaced by the configured
    exception; nothing else is caught. *)
Definition next (u : UpdateableIterator) : Result Config * UpdateableIterator :=
  match cycle_next (_iter u) with
  | (Ret x, c) => (Ret x, mkUpdateableIterator (items u) c (_stop_exc u))
  | (Raise StopIteration, c) =>
      (Raise (_stop_exc u), mkUpdateableIterator (items u) c (_stop_exc u))
  | (Raise e, c) => (Raise e, mkUpdateableIterator (items u) c (_stop_exc u))
  end.

(** ** Registry backends and [BackendServiceProvider] ([backends/base.py],
    [service.py]) *)

Section Provider.
Context `{Runtime}.

(** The handle returned by [watch_all]. *)
Definition Watcher : Type := nat.

(** A registry backend ([BackendBase]).  A [WatchableBase] has
    [supports_watching = True]; a [NonWatchableBase] has
    [supports_watching = False] and declares [update_threshold].
    [watch_all] registers the callback and returns the watcher; the
    notifications are delivered from another thread and none is delivered
    inside a call of this model. *)
Record Backend : Type := mkBackend {
  supports_watching : bool;
  update_threshold : Z;
  get_children : string → Env → Result (list string) * Env;
  get_node : string → Env → Result Config * Env;
  watch_all : string → Env → Result Watcher * Env;
}.

Record BackendServiceProvider : Type := mkProvider {
  name : string;
  backend : Backend;
  _watcher : option Watcher;
  _node : string;
  _loaded : bool;
  _hosts : list Config;
  _hosts_iter : UpdateableIterator;
  _last_updated : option Z;
  _hostname_adapter : Config → Result string;
}.

(** [BackendServiceProvider(name, backend, node, hostname_adapter)];
    [node or name] falls back to the name for [None] and for the empty
    string. *)
Definition BackendServiceProvider_init (nm : string) (b : Backend)
    (node : option string) (adapter : Config → Result string)
  : BackendServiceProvider :=
  {| name := nm;
     backend := b;
     _watcher := None;
     _node := match node with
              | Some n => if String.eqb n "" then nm else n
              | None => nm
              end;
     _loaded := false;
     _hosts := [];
     _hosts_iter := UpdateableIterator_init [] NoHostsAvailableException;
     _last_updated := None;
     _hostname_adapter := adapter |}.

(** The attributes of a provider that hold a time stamp.  [__init__] and
    [_reset_hosts] assign [_last_updated] and no other such attribute, so
    reading any other name raises [AttributeError]. *)
Definition getattr_time (p : BackendServiceProvider) (attr : string)
  : Result (option Z) :=
  if String.eqb attr "_last_updated" then Ret (_last_updated p)
  else Raise (AttributeError attr).

(** The loop of [_get_hosts]: one [get_node] per child, in order. *)
Fixpoint get_nodes (b : Backend) (node : string) (children : list string)
    (env : Env) : Result (list Config) * Env :=
  match children with
  | [] => (Ret [], env)
  | child :: rest =>
      match get_node b (node +:+ "/" +:+ child) env with
      | (Raise e, env1) => (Raise e, env1)
      | (Ret c, env1) =>
          match get_nodes b node rest env1 with
          | (Raise e, env2) => (Raise e, env2)
          | (Ret cs, env2) => (Ret (c :: cs), env2)
          end
      end
  end.

Definition _get_hosts (p : BackendServiceProvider) (env : Env)
  : Result (list Config) * Env :=
  match get_children (backend p) (_node p) env with
  | (Raise e, env1) => (Raise e, env1)
  | (Ret children, env1) => get_nodes (backend p) (_node p) children env1
  end.

(** [_reset_hosts(hosts)]: shuffle, rebuild the iterator, stamp the time. *)
Definition _reset_hosts (p : BackendServiceProvider) (hosts : list Config)
    (env : Env) : BackendServiceProvider * Env :=
  let '(shuffled, env1) := random_shuffle hosts env in
  ({| name := name p;
      backend := backend p;
      _watcher := _watcher p;
      _node := _node p;
      _loaded := _loaded p;
      _hosts := shuffled;
      _hosts_iter := modify (_hosts_iter p) shuffled;
      _last_updated := Some (time_time env1);
      _hostname_adapter := _hostname_adapter p |},
   env1).

Definition set_loaded (p : BackendServiceProvider) : BackendServiceProvider :=
  {| name := name p; backend := backend p; _watcher := _watcher p;
     _node := _node p; _loaded := true; _hosts := _hosts p;
     _hosts_iter := _hosts_iter p; _last_updated := _last_updated p;
     _hostname_adapter := _hostname_adapter p |}.

Definition set_watcher (p : BackendServiceProvider) (w : option Watcher)
  : BackendServiceProvider :=
  {| name := name p; backend := backend p; _watcher := w;
     _node := _node p; _loaded := _loaded p; _hosts := _hosts p;
     _hosts_iter := _hosts_iter p; _last_updated := _last_updated p;
     _hostname_adapter := _hostname_adapter p |}.

Definition set_hosts_iter (p : BackendServiceProvider) (u : UpdateableIterator)
  : BackendServiceProvider :=
  {| name := name p; backend := backend p; _watcher := _watcher p;
     _node := _node p; _loaded := _loaded p; _hosts := _hosts p;
     _hosts_iter := u; _last_updated := _last_updated p;
     _hostname_adapter := _hostname_adapter p |}.

(** [self._reset_hosts(self._get_hosts())]. *)
Definition refresh (p : BackendServiceProvider) (env : Env)
  : Result unit * BackendServiceProvider * Env :=
  match _get_hosts p env with
  | (Raise e, env1) => (Raise e, p, env1)
  | (Ret hosts, env1) =>
      let '(p1, env2) := _reset_hosts p hosts env1 in (Ret tt, p1, env2)
  end.

Definition _load (p : BackendServiceProvider) (env : Env)
  : Result unit * BackendServiceProvider * Env :=
  match refresh p env with
  | (Raise e, p1, env1) => (Raise e, p1, env1)
  | (Ret _, p1, env1) => (Ret tt, set_loaded p1, env1)
  end.

Definition _watch (p : BackendServiceProvider) (env : Env)
  : Result unit * BackendServiceProvider * Env :=
  match watch_all (backend p) (_node p) env with
  | (Raise e, env1) => (Raise e, p, env1)
  | (Ret w, env1) => (Ret tt, set_watcher p (Some w), env1)
  end.

(** The property [_hosts_iterator]: load on first use, install the watch on
    first use of a watching backend, then hand out the iterator. *)
Definition _hosts_iterator (p : BackendServiceProvider) (env : Env)
  : Result unit * BackendServiceProvider * Env :=
  match (if negb (_loaded p) then _load p env else (Ret tt, p, env)) with
  | (Raise e, p1, env1) => (Raise e, p1, env1)
  | (Ret _, p1, env1) =>
      if supports_watching (backend p1) && negb (bool_decide (is_Some (_watcher p1)))
      then _watch p1 env1
      else (Ret tt, p1, env1)
  end.

(** [next(self._hosts_iterator)]. *)
Definition next_host (p : BackendServiceProvider) (env : Env)
  : Result Config * BackendServiceProvider * Env :=
  match _hosts_iterator p env with
  | (Raise e, p1, env1) => (Raise e, p1, env1)
  | (Ret _, p1, env1) =>
      let '(r, u) := next (_hosts_iter p1) in (r, set_hosts_iter p1 u, env1)
  end.

(** [get_host()].  For a backend without watching the staleness test reads
    the attribute [_last_udpated], as the source spells it, before anything
    else is done; [time.time() - None] is a [TypeError]. *)
Definition get_host (p : BackendServiceProvider) (env : Env)
  : Result Config * BackendServiceProvider * Env :=
  if negb (supports_watching (backend p)) then
    let now := time_time env in
    match getattr_time p "_last_udpated" with
    | Raise e => (Raise e, p, env)
    | Ret None => (Raise TypeError, p, env)
    | Ret (Some t) =>
        match (if now - t >? update_threshold (backend p)
               then refresh p env else (Ret tt, p, env)) with
        | (Raise e, p1, env1) => (Raise e, p1, env1)
        | (Ret _, p1, env1) => next_host p1 env1
        end
    end
  else next_host p env.

(** [get_hostname()] of the provider. *)
Definition provider_get_hostname (p : BackendServiceProvider) (env : Env)
  : Result string * BackendServiceProvider * Env :=
  match get_host p env with
  | (Raise e, p1, env1) => (Raise e, p1, env1)
  | (Ret config, p1, env1) => (_hostname_adapter p1 config, p1, env1)
  end.

End Provider.

(** ** Circuit breakers *)

Inductive BreakerState : Type := closed | open | half_open.

#[global] Instance BreakerState_eq_dec : EqDecision BreakerState.
Proof. solve_decision. Defined.

(** Modelled from the spec: the per-host breaker of the [circuit] package,
    which is imported by [breaker.py] and [client.py] and is not part of the
    sources.  A breaker is [closed], [open] or [half_open]; it counts the
    countable failures since its last success and remembers when it was
    opened. *)
Record CircuitBreaker : Type := mkBreaker {
  state : BreakerState;
  failures : nat;
  last_change : Z;
}.

Definition new_breaker : CircuitBreaker := mkBreaker closed 0 0.

(** Modelled from the spec: the check made on entering the monitored scope.
    An open breaker rejects the attempt with [CircuitOpenError] until the
    cool-down [reset_timeout] has elapsed since it was opened; after that
    the attempt goes through and the breaker is half-open. *)
Definition breaker_test (now reset_timeout : Z) (b : CircuitBreaker)
  : Result unit * CircuitBreaker :=
  match state b with
  | open =>
      if now - last_change b <? reset_timeout
      then (Raise CircuitOpenError, b)
      else (Ret tt, mkBreaker half_open (failures b) (last_change b))
  | _ => (Ret tt, b)
  end.

(** Modelled from the spec: a success closes the breaker. *)
Definition breaker_success (b : CircuitBreaker) : CircuitBreaker :=
  mkBreaker closed 0 (last_change b).

(** Modelled from the spec: a countable failure re-opens a half-open
    breaker and opens a closed one when the configured count [maxfail] is
    reached. *)
Definition breaker_error (now : Z) (maxfail : nat) (b : CircuitBreaker)
  : CircuitBreaker :=
  match state b with
  | half_open => mkBreaker open (S (failures b)) now
  | _ =>
      if (maxfail <=? S (failures b))%nat
      then mkBreaker open (S (failures b)) now
      else mkBreaker (state b) (S (failures b)) (last_change b)
  end.

(** A breaker that rejects an attempt made at time [now]. *)
Definition rejects (now reset_timeout : Z) (b : CircuitBreaker) : bool :=
  is_raise (fst (breaker_test now reset_timeout b)).

(** [CircuitBreakerSet] ([breaker.py] on top of the [circuit] package): the
    breakers by host key, in the order in which the dictionary [circuits]
    yields them, the countable error classes, and the two settings of the
    breakers. *)
Record CircuitBreakerSet : Type := mkBreakerSet {
  circuits : list (string * CircuitBreaker);
  error_types : list Exc;
  maxfail : nat;
  reset_timeout : Z;
}.

(** [CircuitBreakerSet(errors)]: no circuit yet, [handle_errors(errors)]. *)
Definition CircuitBreakerSet_init (errors : list Exc) (mf : nat) (rt : Z)
  : CircuitBreakerSet :=
  mkBreakerSet [] errors mf rt.

Definition set_circuits (bs : CircuitBreakerSet)
    (cs : list (string * CircuitBreaker)) : CircuitBreakerSet :=
  mkBreakerSet cs (error_types bs) (maxfail bs) (reset_timeout bs).

Fixpoint lookup_circuit (cs : list (string * CircuitBreaker)) (key : string)
  : option CircuitBreaker :=
  match cs with
  | [] => None
  | (k, b) :: rest => if String.eqb k key then Some b else lookup_circuit rest key
  end.

Fixpoint store_circuit (cs : list (string * CircuitBreaker)) (key : string)
    (b : CircuitBreaker) : list (string * CircuitBreaker) :=
  match cs with
  | [] => [(key, b)]
  | (k, b0) :: rest =>
      if String.eqb k key then (k, b) :: rest
      else (k, b0) :: store_circuit rest key b
  end.

(** Modelled from the spec: [context(key)] of the [circuit] package, which
    creates a closed breaker the first time a key is referenced. *)
Definition context (bs : CircuitBreakerSet) (key : string)
  : CircuitBreaker * CircuitBreakerSet :=
  match lookup_circuit (circuits bs) key with
  | Some b => (b, bs)
  | None => (new_breaker, set_circuits bs (store_circuit (circuits bs) key new_breaker))
  end.

(** Modelled from the spec: leaving the monitored scope.  A normal exit is a
    success, an exception of a countable class is a failure, any other
    exception leaves the breaker alone; the exception is never swallowed. *)
Definition breaker_exit (now : Z) (bs : CircuitBreakerSet) (b : CircuitBreaker)
    (outcome : Result Value) : CircuitBreaker :=
  match outcome with
  | Ret _ => breaker_success b
  | Raise e =>
      if bool_decide (e ∈ error_types bs)
      then breaker_error now (maxfail bs) b
      else b
  end.

(** [CircuitBreakerSet.test()] of [breaker.py]: the list comprehension calls
    [test()] on every circuit in turn and stops at the first one that
    raises; the circuits tested before it keep the state [test()] left them
    in. *)
Fixpoint test (now rt : Z) (cs : list (string * CircuitBreaker))
  : Result (list unit) * list (string * CircuitBreaker) :=
  match cs with
  | [] => (Ret [], [])
  | (k, b) :: rest =>
      match breaker_test now rt b with
      | (Raise e, b1) => (Raise e, (k, b1) :: rest)
      | (Ret r, b1) =>
          match test now rt rest with
          | (Raise e, rest1) => (Raise e, (k, b1) :: rest1)
          | (Ret rs, rest1) => (Ret (r :: rs), (k, b1) :: rest1)
          end
      end
  end.

(** [CircuitBreakerSet.all_closed()] of [breaker.py]: [False] when
    [test()] raises [CircuitOpenError]; when it does not, the function ends
    without a [return] statement, which yields [None]. *)
Definition all_closed (now : Z) (bs : CircuitBreakerSet)
  : Result Value * CircuitBreakerSet :=
  match test now (reset_timeout bs) (circuits bs) with
  | (Raise CircuitOpenError, cs) => (Ret (VBool false), set_circuits bs cs)
  | (Raise e, cs) => (Raise e, set_circuits bs cs)
  | (Ret _, cs) => (Ret VNone, set_circuits bs cs)
  end.

(** ** [Retriable] and [SmartClient] ([client.py]) *)

(** Dictionaries are mutable objects: the heap holds them by address, and a
    reference is the position of the object in the heap. *)
Abbreviation Heap := (list (gmap string Value)).

Section Client.
Context `{Runtime}.

(** A Python callable behind a [Retriable]: positional arguments, keyword
    arguments, and its effect on the environment. *)
Definition Func : Type :=
  list Value → gmap string Value → Env → Result Value * Env.

Definition heap_read (h : Heap) (a : nat) : gmap string Value :=
  default ∅ (h !! a).

(** [d.copy()]: a new object with the same contents. *)
Definition dict_copy (h : Heap) (a : nat) : nat * Heap :=
  (length h, h ++ [heap_read h a]).

(** [d.update(other)]: in place, the keys of [other] win. *)
Definition dict_update (h : Heap) (a : nat) (other : gmap string Value) : Heap :=
  <[a := other ∪ heap_read h a]> h.

Record Retriable : Type := mkRetriable {
  func : Func;
  args : list Value;
  kwargs : nat;
}.

(** The constructor of [Retriable]: the keyword arguments of the call
    arrive as a dictionary of their own. *)
Definition Retriable_init (f : Func) (a : list Value) (kw : gmap string Value)
    (h : Heap) : Retriable * Heap :=
  (mkRetriable f a (length h), h ++ [kw]).

(** What the retry loop does that can be observed from outside: its log
    records, the calls of the wrapped function and the sleeps.  [NoHost]
    marks a failed [get_hostname()], [Rejected] a breaker that refused the
    attempt on entering its scope, [BackoffFailed] a backoff step that
    raised instead of sleeping. *)
Inductive Event : Type :=
| NoHost (e : Exc)
| LogAttempt (host : string)
| Rejected (host : string)
| Invoked (a : list Value) (kw : gmap string Value)
| LogCircuitOpen (host : string)
| LogSilenced (e : Exc) (host : string)
| Slept (d : Z)
| BackoffFailed (e : Exc).

(** [Retriable.__call__] with keyword arguments [new_kwargs]: copy the
    stored dictionary, update the copy, call the function with the stored
    positional arguments and the contents of the copy. *)
Definition Retriable_call (r : Retriable) (new_kwargs : gmap string Value)
    (h : Heap) (en : Env) : Result Value * Heap * Env * list Event :=
  let '(kw, h1) := dict_copy h (kwargs r) in
  let h2 := dict_update h1 kw new_kwargs in
  let '(res, e1) := func r (args r) (heap_read h2 kw) en in
  (res, h2, e1, [Invoked (args r) (heap_read h2 kw)]).

(** The [backoff] argument of [retry]: [None], a number, or a callable that
    yields the delay or raises. *)
Inductive Backoff : Type :=
| BackoffNone
| BackoffFixed (d : Z)
| BackoffCallable (f : Env → Result Z * Env).

Definition backoff_truthy (b : Backoff) : bool :=
  match b with
  | BackoffNone => false
  | BackoffFixed d => negb (d =? 0)
  | BackoffCallable _ => true
  end.

(** [SmartClient].  [client_name] is the attribute [name]; [_hosts_cycle] is
    the attribute [_hosts_iter], [it.cycle(hosts) if hosts else None]. *)
Record SmartClient : Type := mkClient {
  client_name : string;
  breakers : CircuitBreakerSet;
  _hosts_cycle : option (cycle string);
  _hosts_provider : option BackendServiceProvider;
}.

(** [SmartClient(name, error_types, hosts_provider, hosts)]; [mf] and [rt]
    are the settings the [circuit] package gives to the breakers. *)
Definition SmartClient_init (nm : string) (errors : option (list Exc))
    (provider : option BackendServiceProvider) (hosts : option (list string))
    (mf : nat) (rt : Z) : SmartClient :=
  {| client_name := nm;
     breakers := CircuitBreakerSet_init (default [] errors) mf rt;
     _hosts_cycle := match hosts with
                     | Some (h :: hs) => Some (it_cycle (h :: hs))
                     | _ => None
                     end;
     _hosts_provider := provider |}.

Definition set_breakers (c : SmartClient) (bs : CircuitBreakerSet) : SmartClient :=
  mkClient (client_name c) bs (_hosts_cycle c) (_hosts_provider c).

(** The state the retry loop works on. *)
Record State : Type := mkState {
  client : SmartClient;
  heap : Heap;
  env : Env;
}.

(** [get_hostname()]: the provider when there is one, the static cycle
    otherwise; [next(None)] is a [TypeError]. *)
Definition get_hostname (c : SmartClient) (e : Env)
  : Result string * SmartClient * Env :=
  match _hosts_provider c with
  | Some p =>
      let '(r, p1, e1) := provider_get_hostname p e in
      (r, mkClient (client_name c) (breakers c) (_hosts_cycle c) (Some p1), e1)
  | None =>
      match _hosts_cycle c with
      | None => (Raise TypeError, c, e)
      | Some cyc =>
          let '(r, cyc1) := cycle_next cyc in
          (r, mkClient (client_name c) (breakers c) (Some cyc1) None, e)
      end
  end.

(** How one pass through the body of the [for] loop ends: the function
    returns or raises, or the loop goes on. *)
Inductive Step : Type :=
| Done (res : Result Value)
| Continue.

(** The [except] clauses of the loop body, for an exception [e] that left
    the [with] block.  In the first clause the name [AllHostsUnreachable] is
    not bound in [client.py], which imports
    [AllHostsUnreachableException]: evaluating it raises [NameError]. *)
Definition handle (e : Exc) (host : string) (c : SmartClient) (en : Env)
  : Step * SmartClient * list Event :=
  if bool_decide (e = CircuitOpenError) then
    match all_closed (time_time en) (breakers c) with
    | (Raise e1, bs1) => (Done (Raise e1), set_breakers c bs1, [])
    | (Ret v, bs1) =>
        if truthy v
        then (Done (Raise (NameError "AllHostsUnreachable")), set_breakers c bs1, [])
        else (Continue, set_breakers c bs1, [LogCircuitOpen host])
    end
  else if bool_decide (e ∈ error_types (breakers c)) then
    (Continue, c, [LogSilenced e host])
  else
    (Done (Raise e), c, []).

(** The body of the [for] loop up to the end of the [try] statement. *)
Definition attempt (r : Retriable) (send_host : bool) (st : State)
  : Step * State * list Event :=
  match get_hostname (client st) (env st) with
  | (Raise e, c1, e1) => (Done (Raise e), mkState c1 (heap st) e1, [NoHost e])
  | (Ret host, c1, e1) =>
      let '(b, bs1) := context (breakers c1) host in
      match breaker_test (time_time e1) (reset_timeout bs1) b with
      | (Raise e, b1) =>
          let bs2 := set_circuits bs1 (store_circuit (circuits bs1) host b1) in
          let '(s, c2, evs) := handle e host (set_breakers c1 bs2) e1 in
          (s, mkState c2 (heap st) e1, [LogAttempt host; Rejected host] ++ evs)
      | (Ret _, b1) =>
          let new_kwargs : gmap string Value :=
            if send_host then {[ "host" := VStr host ]} else ∅ in
          let '(res, h1, e2, evc) := Retriable_call r new_kwargs (heap st) e1 in
          let b2 := breaker_exit (time_time e2) bs1 b1 res in
          let bs2 := set_circuits bs1 (store_circuit (circuits bs1) host b2) in
          match res with
          | Ret v =>
              (Done (Ret v), mkState (set_breakers c1 bs2) h1 e2,
               [LogAttempt host] ++ evc)
          | Raise e =>
              let '(s, c2, evs) := handle e host (set_breakers c1 bs2) e2 in
              (s, mkState c2 h1 e2, [LogAttempt host] ++ evc ++ evs)
          end
      end
  end.

(** [time.sleep(d)]: a negative delay is refused with [IOError], as
    Python 2 does, and nothing is slept. *)
Definition sleep (d : Z) (en : Env) : Result unit * Env * list Event :=
  if d <? 0 then (Raise IOError, en, [BackoffFailed IOError])
  else (Ret tt, time_sleep d en, [Slept d]).

(** The end of the loop body:
    [if backoff and i < max_tries: time.sleep(...)], where the delay is
    [backoff() if callable(backoff) else backoff]; an error of [backoff()]
    or of [time.sleep] leaves the loop. *)
Definition do_backoff (backoff : Backoff) (i max_tries : Z) (en : Env)
  : Result unit * Env * list Event :=
  if backoff_truthy backoff && (i <? max_tries) then
    match backoff with
    | BackoffNone => (Ret tt, en, [])
    | BackoffFixed d => sleep d en
    | BackoffCallable f =>
        match f en with
        | (Raise e, e1) => (Raise e, e1, [BackoffFailed e])
        | (Ret d, e1) => sleep d e1
        end
    end
  else (Ret tt, en, []).

(** The delay [d] and the environment [e1] that
    [backoff() if callable(backoff) else backoff] yields in [en]. *)
Definition backoff_yields (backoff : Backoff) (en : Env) (d : Z) (e1 : Env)
  : Prop :=
  match backoff with
  | BackoffNone => False
  | BackoffFixed d0 => d = d0 ∧ e1 = en
  | BackoffCallable f => f en = (Ret d, e1)
  end.

(** [for i in xrange(1, max_tries + 1): ...] followed by
    [raise MaxRetriesReached]; [remaining] counts the passes that are left
    and [i] is the loop variable. *)
Fixpoint retry_loop (remaining : nat) (i : Z) (r : Retriable) (max_tries : Z)
    (backoff : Backoff) (send_host : bool) (st : State)
  : Result Value * State * list Event :=
  match remaining with
  | O => (Raise MaxRetriesReached, st, [])
  | S n =>
      match attempt r send_host st with
      | (Done res, st1, evs) => (res, st1, evs)
      | (Continue, st1, evs) =>
          match do_backoff backoff i max_tries (env st1) with
          | (Raise e, e2, evb) =>
              (Raise e, mkState (client st1) (heap st1) e2, evs ++ evb)
          | (Ret _, e2, evb) =>
              let '(res, st3, evr) :=
                retry_loop n (i + 1) r max_tries backoff send_host
                           (mkState (client st1) (heap st1) e2) in
              (res, st3, evs ++ evb ++ evr)
          end
      end
  end.

(** [retry] called with a [Retriable]. *)
Definition retry_run (r : Retriable) (max_tries : Z) (backoff : Backoff)
    (send_host : bool) (st : State) : Result Value * State * list Event :=
  retry_loop (Z.to_nat max_tries) 1 r max_tries backoff send_host st.

(** The first argument of [retry]: nothing, a plain function, or a
    [Retriable]. *)
Inductive RetryArg : Type :=
| ArgNone
| ArgFunc (f : Func)
| ArgRetriable (r : Retriable).

(** What [retry] gives back: the partial application of itself, the
    closure [wrapper], or the outcome of the loop. *)
Inductive RetryValue : Type :=
| Partial (max_tries : Z) (backoff : Backoff) (send_host : bool)
| Wrapper (f : Func) (max_tries : Z) (backoff : Backoff) (send_host : bool)
| Outcome (res : Result Value).

(** [retry(retriable, max_tries, backoff, send_host)]. *)
Definition retry (retriable : RetryArg) (max_tries : Z) (backoff : Backoff)
    (send_host : bool) (st : State) : RetryValue * State * list Event :=
  match retriable with
  | ArgNone => (Partial max_tries backoff send_host, st, [])
  | ArgFunc f => (Wrapper f max_tries backoff send_host, st, [])
  | ArgRetriable r =>
      let '(res, st1, evs) := retry_run r max_tries backoff send_host st in
      (Outcome res, st1, evs)
  end.

(** Calling the closure [wrapper] with positional arguments [a] and
    keyword arguments [kw]: it builds the
    [Retriable], calls [self.retry] on it and ends without a [return], so a
    call that does not raise yields [None]. *)
Definition wrapper_call (f : Func) (max_tries : Z) (backoff : Backoff)
    (send_host : bool) (a : list Value) (kw : gmap string Value) (st : State)
  : Result Value * State * list Event :=
  let '(_retriable, h1) := Retriable_init f a kw (heap st) in
  match retry (ArgRetriable _retriable) max_tries backoff send_host
              (mkState (client st) h1 (env st)) with
  | (Outcome (Raise e), st1, evs) => (Raise e, st1, evs)
  | (_, st1, evs) => (Ret VNone, st1, evs)
  end.

(** Calling what [retry(max_tries=..., ...)] returned on a function:
    [functools.partial(self.retry, ...)(f)]. *)
Definition partial_call (max_tries : Z) (backoff : Backoff) (send_host : bool)
    (f : RetryArg) (st : State) : RetryValue * State * list Event :=
  retry f max_tries backoff send_host st.

(** A [Retriable] invoked once for every dictionary of overrides in the
    list, one call after the other. *)
Fixpoint call_many (r : Retriable) (overrides : list (gmap string Value))
    (h : Heap) (en : Env) : list (Result Value) * Heap * Env * list Event :=
  match overrides with
  | [] => ([], h, en, [])
  | ov :: rest =>
      let '(res, h1, e1, ev1) := Retriable_call r ov h en in
      let '(ress, h2, e2, ev2) := call_many r rest h1 e1 in
      (res :: ress, h2, e2, ev1 ++ ev2)
  end.

(** Counting in a trace. *)
Definition is_no_host (ev : Event) : bool :=
  match ev with NoHost _ => true | _ => false end.
Definition is_invoked (ev : Event) : bool :=
  match ev with Invoked _ _ => true | _ => false end.
Definition is_rejected (ev : Event) : bool :=
  match ev with Rejected _ => true | _ => false end.
Definition is_slept (ev : Event) : bool :=
  match ev with Slept _ => true | _ => false end.

Definition is_backoff_failed (ev : Event) : bool :=
  match ev with BackoffFailed _ => true | _ => false end.

Definition host_errors (evs : list Event) : nat := length (filter is_no_host evs).
Definition backoff_errors (evs : list Event) : nat :=
  length (filter is_backoff_failed evs).
Definition invocations (evs : list Event) : nat := length (filter is_invoked evs).
Definition rejections (evs : list Event) : nat := length (filter is_rejected evs).
Definition sleeps (evs : list Event) : list Z :=
  omap (λ ev, match ev with Slept d => Some d | _ => None end) evs.

(** The two warnings the loop logs when it silences a failure. *)
Definition is_warning (ev : Event) : bool :=
  match ev with LogCircuitOpen _ | LogSilenced _ _ => true | _ => false end.

(** Every call of the function in the trace is followed at once by a
    warning: every invocation raised an error that the loop caught and
    silenced. *)
Fixpoint calls_silenced (evs : list Event) : bool :=
  match evs with
  | [] => true
  | Invoked _ _ :: rest =>
      match rest with
      | ev :: _ => is_warning ev && calls_silenced rest
      | [] => false
      end
  | _ :: rest => calls_silenced rest
  end.

(** What invoking a [Retriable] once per dictionary of overrides has to
    amount to: the function [f] applied, in order, to the captured
    positional arguments [a] and to the captured keyword arguments
    [stored] overridden by the overrides of that invocation alone, each
    call running in the environment the previous one left. *)
Fixpoint calls_with_overrides (f : Func) (a : list Value)
    (stored : gmap string Value) (overrides : list (gmap string Value))
    (en : Env) : list (Result Value) * Env :=
  match overrides with
  | [] => ([], en)
  | ov :: rest =>
      let '(res, e1) := f a (ov ∪ stored) en in
      let '(ress, e2) := calls_with_overrides f a stored rest e1 in
      (res :: ress, e2)
  end.

End Client.

(** ** A simulated runtime *)

(** An environment for running the model on concrete inputs: a clock and the
    number of requests the service has received.  Sleeping advances the
    clock; shuffling leaves the list in the order it came in, which is one
    of the orders [random.shuffle] can produce. *)
Record SimEnv : Type := mkSimEnv {
  sim_clock : Z;
  sim_requests : nat;
}.

Definition sim_runtime : Runtime :=
  {| Env := SimEnv;
     time_time := sim_clock;
     time_sleep := λ d e, mkSimEnv (sim_clock e + d) (sim_requests e);
     random_shuffle := λ l e, (l, e) |}.

#[global] Existing Instance sim_runtime.

(** A request takes one unit of time. *)
Definition sim_tick (e : SimEnv) : SimEnv :=
  mkSimEnv (sim_clock e + 1) (S (sim_requests e)).

(** Wrapped functions: one that always fails with a connection error, one
    that always answers 42, one that fails with an error of another class. *)
Definition ConnectionError : Exc := OtherError "ConnectionError".

Definition failing_func : Func :=
  λ _ _ e, (Raise ConnectionError, sim_tick e).

Definition answering_func : Func :=
  λ _ _ e, (Ret (VInt 42), sim_tick e).


(** A function that answers with the host it was given and counts the
    timeout in the requests of the environment. *)
Definition echo_func : Func :=
  λ _ kw e,
    (Ret (default VNone (kw !! "host")),
     mkSimEnv (sim_clock e + 1)
              (sim_requests e
               + match kw !! "timeout" with Some (VInt n) => Z.to_nat n | _ => 0 end)).

(** A client over a static list of hosts, with breakers that open at the
    third countable failure and stay open for ten units of time. *)
Definition sim_client (hosts : list string) : SmartClient :=
  SmartClient_init "svc" (Some [ConnectionError]) None (Some hosts) 3 10.

Definition sim_state (c : SmartClient) : State :=
  mkState c [] (mkSimEnv 0 0).

(** The same client with breakers already known: the one of host A was
    opened at time 0 by its third failure. *)
Definition sim_client_with (hosts : list string)
    (cs : list (string * CircuitBreaker)) : SmartClient :=
  set_breakers (sim_client hosts) (set_circuits (breakers (sim_client hosts)) cs).

Definition breaker_A_open : string * CircuitBreaker := ("A", mkBreaker open 3 0).
Definition breaker_B_closed : string * CircuitBreaker := ("B", new_breaker).

(** The scenario of the specification: secure port 8443, plain port 8080. *)
Definition scenario_config (ssl : option Value) : Config :=
  let base : Config := <["port" := VInt 8080]> (<["address" := VStr "h1"]> ∅) in
  match ssl with
  | Some v => <["sslPort" := v]> base
  | None => base
  end.

(** Retriables over the three functions, with no positional argument and
    the empty dictionary at address 0 of the heap. *)
Definition failing : Retriable := mkRetriable failing_func [] 0.
Definition answering : Retriable := mkRetriable answering_func [] 0.

(** Hosts A and B at time 1: both breakers are known, the one of A is open
    and the one of B is closed. *)
Definition state_A_open_B_closed : State :=
  mkState (sim_client_with ["A"; "B"] [breaker_A_open; breaker_B_closed])
          [∅] (mkSimEnv 1 0).

(** Host A alone at time 1, its breaker open: every known breaker is open. *)
Definition state_all_open : State :=
  mkState (sim_client_with ["A"] [breaker_A_open]) [∅] (mkSimEnv 1 0).

(** Host A alone at time 0, no breaker known yet. *)
Definition state_fresh : State :=
  mkState (sim_client ["A"]) [∅] (mkSimEnv 0 0).

(** A registry with the given children, watching or not; every node holds
    an address and a port. *)
Definition sim_backend (watching : bool) (children : list string) : Backend :=
  {| supports_watching := watching;
     update_threshold := 30;
     get_children := λ _ e, (Ret children, e);
     get_node := λ path e,
       (Ret (<["address" := VStr path]> (<["port" := VInt 8080]> ∅)), e);
     watch_all := λ _ e, (Ret 1%nat, e) |}.

Definition sim_provider (watching : bool) (children : list string)
  : BackendServiceProvider :=
  BackendServiceProvider_init "svc" (sim_backend watching children) None
                              default_hostname_adapter.

(** A provider over a watching registry without children, after its first
    use: loaded, watched, and with an empty generation. *)
Definition sim_provider_empty : BackendServiceProvider :=
  snd (fst (get_host (sim_provider true []) (mkSimEnv 0 0))).

Definition sim_provider_client (p : BackendServiceProvider) : SmartClient :=
  SmartClient_init "svc" (Some [ConnectionError]) (Some p) None 3 10.

(** ** Repeated use of the iterators *)

(** [k] successive calls of [next] on a cycle, with their results in
    order. *)
Fixpoint cycle_take {A} (k : nat) (c : cycle A) : list (Result A) * cycle A :=
  match k with
  | O => ([], c)
  | S k' =>
      let '(r, c1) := cycle_next c in
      let '(rs, c2) := cycle_take k' c1 in
      (r :: rs, c2)
  end.

(** [k] successive calls of [UpdateableIterator.next]. *)
Fixpoint next_n (k : nat) (u : UpdateableIterator)
  : list (Result Config) * UpdateableIterator :=
  match k with
  | O => ([], u)
  | S k' =>
      let '(r, u1) := next u in
      let '(rs, u2) := next_n k' u1 in
      (r :: rs, u2)
  end.

Section ProviderCallbacks.
Context `{Runtime}.

(** [_on_children_change(children)]: the watch callback of the provider;
    [children] maps the name of each child to its configuration, and
    [children.values()] lists the configurations in the order of the
    dictionary. *)
Definition _on_children_change (p : BackendServiceProvider)
    (children : gmap string Config) (en : Env) : BackendServiceProvider * Env :=
  _reset_hosts p (map snd (map_to_list children)) en.

(** [_unwatch()]: [self._watcher.stop()] followed by
    [self._watcher = None]; [stop] is the method of the watcher object the
    backend returned.  Without a watcher, [None.stop] is an
    [AttributeError]. *)
Definition _unwatch (stop : Watcher → Env → Result unit * Env)
    (p : BackendServiceProvider) (en : Env)
  : Result unit * BackendServiceProvider * Env :=
  match _watcher p with
  | None => (Raise (AttributeError "stop"), p, en)
  | Some w =>
      match stop w en with
      | (Raise e, e1) => (Raise e, p, e1)
      | (Ret _, e1) => (Ret tt, set_watcher p None, e1)
      end
  end.

(** [k] successive calls of [get_host], whatever each of them returns or
    raises. *)
Fixpoint get_host_n (k : nat) (p : BackendServiceProvider) (en : Env)
  : list (Result Config) * BackendServiceProvider * Env :=
  match k with
  | O => ([], p, en)
  | S k' =>
      let '(r, p1, e1) := get_host p en in
      let '(rs, p2, e2) := get_host_n k' p1 e1 in
      (r :: rs, p2, e2)
  end.

End ProviderCallbacks.

Section ClientDrivers.
Context `{Runtime}.

(** [k] successive calls of [SmartClient.get_hostname]. *)
Fixpoint get_hostname_n (k : nat) (c : SmartClient) (en : Env)
  : list (Result string) * SmartClient * Env :=
  match k with
  | O => ([], c, en)
  | S k' =>
      let '(r, c1, e1) := get_hostname c en in
      let '(rs, c2, e2) := get_hostname_n k' c1 e1 in
      (r :: rs, c2, e2)
  end.

(** The events that open a pass of the loop. *)
Definition starts_attempt (ev : Event) : bool :=
  match ev with LogAttempt _ | NoHost _ => true | _ => false end.

(** Every sleep in the trace is followed at once by the start of another
    pass of the loop: the loop never sleeps after its last attempt. *)
Fixpoint sleeps_precede_attempts (evs : list Event) : bool :=
  match evs with
  | [] => true
  | Slept _ :: rest =>
      match rest with
      | ev :: _ => starts_attempt ev && sleeps_precede_attempts rest
      | [] => false
      end
  | _ :: rest => sleeps_precede_attempts rest
  end.

(** The keyword arguments a call of the [Retriable] receives in [retry]:
    the stored ones, with [host] bound to the selected host when
    [send_host] is set. *)
Definition bound_kwargs (send_host : bool) (host : string)
    (stored : gmap string Value) : gmap string Value :=
  if send_host then <["host" := VStr host]> stored else stored.

End ClientDrivers.

(** A provider over a watching registry with one child whose node holds an
    address and no port, after its first use. *)
Definition sim_backend_no_port : Backend :=
  {| supports_watching := true;
     update_threshold := 30;
     get_children := λ _ e, (Ret ["n1"], e);
     get_node := λ path e, (Ret (<["address" := VStr path]> ∅), e);
     watch_all := λ _ e, (Ret 1%nat, e) |}.

Definition sim_provider_no_port : BackendServiceProvider :=
  snd (fst (get_host (BackendServiceProvider_init "svc" sim_backend_no_port None
                        default_hostname_adapter) (mkSimEnv 0 0))).

(** ** Paths and URLs ([backends/zookeeper.py], [client.py]) *)

(** The character ['/']. *)
Definition slash : Ascii.ascii := Eval cbv in Ascii.ascii_of_nat 47.

(** [s.rstrip('/')]: the string without its trailing slashes. *)
Fixpoint rstrip_slash (s : string) : string :=
  match s with
  | EmptyString => EmptyString
  | String c rest =>
      match rstrip_slash rest with
      | EmptyString => if Ascii.eqb c slash then EmptyString else String c EmptyString
      | String c1 r1 => String c (String c1 r1)
      end
  end.

(** [s.lstrip('/')]: the string without its leading slashes. *)
Fixpoint lstrip_slash (s : string) : string :=
  match s with
  | EmptyString => EmptyString
  | String c rest => if Ascii.eqb c slash then lstrip_slash rest else String c rest
  end.

(** [node_join] of [zookeeper.py], applied to the list of its arguments:
    ['/'.join(name.rstrip('/') for name in names)]. *)
Definition node_join (names : list string) : string :=
  String.concat "/" (map rstrip_slash names).

(** The URL [SmartHTTPClient._send] requests:
    ['http://' + host + '/' + path.lstrip('/')]. *)
Definition send_url (host path : string) : string :=
  "http://" +:+ host +:+ "/" +:+ lstrip_slash path.

(** ** The sessions of [SmartHTTPClient] ([client.py]) *)

(** The dictionary [_sessions] maps a hostname to its session object; the
    objects made by [requests.Session()] are kept in [session_objects] and
    referred to by their position.  [S] is what a session holds. *)
Record Sessions (S : Type) : Type := mkSessions {
  _sessions : gmap string nat;
  session_objects : list S;
}.
Arguments mkSessions {S} _ _.
Arguments _sessions {S} s.
Arguments session_objects {S} s.

(** [SmartHTTPClient.__init__]: no session yet. *)
Definition Sessions_init {S} : Sessions S := mkSessions ∅ [].

(** [get_session(hostname)]: the session kept for the hostname, or a new
    one that is kept from then on; a session object is never falsy. *)
Definition get_session {S} (new_session : S) (hostname : string)
    (s : Sessions S) : nat * Sessions S :=
  match _sessions s !! hostname with
  | Some session => (session, s)
  | None =>
      let session := length (session_objects s) in
      (session,
       mkSessions (<[hostname := session]> (_sessions s))
                  (session_objects s ++ [new_session]))
  end.

(** [get_session] for each hostname of a list, in order. *)
Fixpoint get_sessions {S} (new_session : S) (hostnames : list string)
    (s : Sessions S) : Sessions S :=
  match hostnames with
  | [] => s
  | h :: rest => get_sessions new_session rest (snd (get_session new_session h s))
  end.

(** What [get_session] keeps: every kept reference points to an object,
    two hostnames never share one, and there are as many objects as kept
    hostnames. *)
Definition sessions_ok {S} (s : Sessions S) : Prop :=
  (∀ h a, _sessions s !! h = Some a → (a < length (session_objects s))%nat)
  ∧ (∀ h1 h2 a, _sessions s !! h1 = Some a → _sessions s !! h2 = Some a → h1 = h2)
  ∧ length (session_objects s) = size (_sessions s).

(** ** The ZooKeeper backend ([backends/zookeeper.py]) *)

(** [KazooWatcher]: the watch objects it was built from, which are watches
    of the kazoo client (by handle) or other [KazooWatcher]s. *)
#[warnings="-register-all"] Inductive KazooWatcher : Type :=
| mkKazooWatcher (_watches : list (nat + KazooWatcher)).

Definition watches_of (w : KazooWatcher) : list (nat + KazooWatcher) :=
  match w with mkKazooWatcher ws => ws end.

(** [KazooWatcher.stop()]: the body of the loop over [self._watches] reads
    [self._watch], an attribute the class never sets, so the first pass
    raises [AttributeError]; without watches the loop body is not run. *)
Definition KazooWatcher_stop (w : KazooWatcher) : Result unit :=
  match watches_of w with
  | [] => Ret tt
  | _ :: _ => Raise (AttributeError "_watch")
  end.

Section ZooKeeperBackend.
Context `{Runtime}.

(** The kazoo client as [zookeeper.py] uses it: [start()], [get(name)]
    reduced to the data it returns, [get_children(name)], and the
    constructors [DataWatch] and [ChildrenWatch], which register a watch and
    return its handle. *)
Record KazooClient : Type := mkKazooClient {
  kz_start : Env → Result unit * Env;
  kz_get : string → Env → Result string * Env;
  kz_get_children : string → Env → Result (list string) * Env;
  kz_DataWatch : string → Env → Result nat * Env;
  kz_ChildrenWatch : string → Env → Result nat * Env;
}.

Record ZooKeeper : Type := mkZooKeeper {
  _client : KazooClient;
  _started : bool;
}.

(** The property [client]: the kazoo client, started on first use. *)
Definition zk_client (z : ZooKeeper) (en : Env)
  : Result KazooClient * ZooKeeper * Env :=
  if _started z then (Ret (_client z), z, en)
  else
    match kz_start (_client z) en with
    | (Raise e, e1) => (Raise e, z, e1)
    | (Ret _, e1) => (Ret (_client z), mkZooKeeper (_client z) true, e1)
    end.

(** [get_children(name)]. *)
Definition zk_get_children (z : ZooKeeper) (nm : string) (en : Env)
  : Result (list string) * ZooKeeper * Env :=
  match zk_client z en with
  | (Raise e, z1, e1) => (Raise e, z1, e1)
  | (Ret k, z1, e1) => let '(r, e2) := kz_get_children k nm e1 in (r, z1, e2)
  end.

(** [get_node(name)]: the data ['false'] stands for an empty mapping, any
    other data is decoded by [json.loads]. *)
Definition zk_get_node (json_loads : string → Result Config) (z : ZooKeeper)
    (nm : string) (en : Env) : Result Config * ZooKeeper * Env :=
  match zk_client z en with
  | (Raise e, z1, e1) => (Raise e, z1, e1)
  | (Ret k, z1, e1) =>
      match kz_get k nm e1 with
      | (Raise e, e2) => (Raise e, z1, e2)
      | (Ret data, e2) =>
          (if String.eqb data "false" then Ret ∅ else json_loads data, z1, e2)
      end
  end.

(** [DataWatch] of the client on each of the paths, one after the other;
    the handles in the order of the paths. *)
Fixpoint kz_data_watches (k : KazooClient) (paths : list string) (en : Env)
  : Result (list nat) * Env :=
  match paths with
  | [] => (Ret [], en)
  | path :: rest =>
      match kz_DataWatch k path en with
      | (Raise e, e1) => (Raise e, e1)
      | (Ret h, e1) =>
          match kz_data_watches k rest e1 with
          | (Raise e, e2) => (Raise e, e2)
          | (Ret hs, e2) => (Ret (h :: hs), e2)
          end
      end
  end.

(** [watch_node(name, callback)] and [watch_children(name, callback)]: one
    watch of the client, wrapped in a [KazooWatcher]. *)
Definition zk_watch_node (z : ZooKeeper) (nm : string) (en : Env)
  : Result KazooWatcher * ZooKeeper * Env :=
  match zk_client z en with
  | (Raise e, z1, e1) => (Raise e, z1, e1)
  | (Ret k, z1, e1) =>
      match kz_DataWatch k nm e1 with
      | (Raise e, e2) => (Raise e, z1, e2)
      | (Ret w, e2) => (Ret (mkKazooWatcher [inl w]), z1, e2)
      end
  end.

Definition zk_watch_children (z : ZooKeeper) (nm : string) (en : Env)
  : Result KazooWatcher * ZooKeeper * Env :=
  match zk_client z en with
  | (Raise e, z1, e1) => (Raise e, z1, e1)
  | (Ret k, z1, e1) =>
      match kz_ChildrenWatch k nm e1 with
      | (Raise e, e2) => (Raise e, z1, e2)
      | (Ret w, e2) => (Ret (mkKazooWatcher [inl w]), z1, e2)
      end
  end.

(** The loop of [watch_all] over the children: one node watcher each, on
    [node_join(name, child)]. *)
Fixpoint zk_watch_nodes (z : ZooKeeper) (nm : string) (children : list string)
    (en : Env) : Result (list KazooWatcher) * ZooKeeper * Env :=
  match children with
  | [] => (Ret [], z, en)
  | child :: rest =>
      match zk_watch_node z (node_join [nm; child]) en with
      | (Raise e, z1, e1) => (Raise e, z1, e1)
      | (Ret w, z1, e1) =>
          match zk_watch_nodes z1 nm rest e1 with
          | (Raise e, z2, e2) => (Raise e, z2, e2)
          | (Ret ws, z2, e2) => (Ret (w :: ws), z2, e2)
          end
      end
  end.

(** [watch_all(name, callback)]: the watcher of the children, then one
    watcher per child listed at that time, all wrapped in one
    [KazooWatcher]. *)
Definition zk_watch_all (z : ZooKeeper) (nm : string) (en : Env)
  : Result KazooWatcher * ZooKeeper * Env :=
  match zk_watch_children z nm en with
  | (Raise e, z1, e1) => (Raise e, z1, e1)
  | (Ret w0, z1, e1) =>
      match zk_get_children z1 nm e1 with
      | (Raise e, z2, e2) => (Raise e, z2, e2)
      | (Ret children, z2, e2) =>
          match zk_watch_nodes z2 nm children e2 with
          | (Raise e, z3, e3) => (Raise e, z3, e3)
          | (Ret ws, z3, e3) =>
              (Ret (mkKazooWatcher (map inr (w0 :: ws))), z3, e3)
          end
      end
  end.

End ZooKeeperBackend.

(** A kazoo client over the simulated environment: two children, watches
    numbered by the requests made so far. *)
Definition sim_kazoo : KazooClient :=
  {| kz_start := λ e, (Ret tt, e);
     kz_get := λ _ e, (Ret "false", e);
     kz_get_children := λ _ e, (Ret ["n1"; "n2"], e);
     kz_DataWatch := λ _ e, (Ret (sim_requests e), sim_tick e);
     kz_ChildrenWatch := λ _ e, (Ret (sim_requests e), sim_tick e) |}.

(** A second runtime over the simulated environment: its shuffle reverses
    the list, which is another of the orders [random.shuffle] can produce,
    and takes one unit of time. *)
Definition reversing_runtime : Runtime :=
  {| Env := SimEnv;
     time_time := sim_clock;
     time_sleep := λ d e, mkSimEnv (sim_clock e + d) (sim_requests e);
     random_shuffle := λ l e, (rev l, mkSimEnv (sim_clock e + 1) (sim_requests e)) |}.

(** A new provider in that runtime, over a watching registry. *)
Definition reversing_provider : @BackendServiceProvider reversing_runtime :=
  @BackendServiceProvider_init reversing_runtime "svc"
    (@mkBackend reversing_runtime true 30
       (λ _ e, (Ret ["a"; "b"], e))
       (λ path e, (Ret (<["address" := VStr path]> ∅), e))
       (λ _ e, (Ret 1%nat, e)))
    None default_hostname_adapter.

(** * Properties *)

(** ** Hostname rendering *)

Lemma adapter_secure (config : Config) (ssl : Value) :
  config !! "sslPort" = Some ssl →
  py_eq_zero ssl = false →
  default_hostname_adapter config =
    match getitem config "address" with
    | Ret address => Ret ("https://" +:+ py_str address +:+ ":" +:+ py_str ssl)
    | Raise e => Raise e
    end.
Proof.
  intros Hssl Hnz. unfold default_hostname_adapter, dict_get.
  rewrite Hssl. simpl. rewrite Hnz. simpl.
  destruct (getitem config "address"); reflexivity.
Qed.

Lemma adapter_plain (config : Config) :
  py_eq_zero (dict_get config "sslPort" (VInt 0)) = true →
  default_hostname_adapter config =
    match getitem config "port" with
    | Raise e => Raise e
    | Ret port =>
        match getitem config "address" with
        | Ret address => Ret ("http://" +:+ py_str address +:+ ":" +:+ py_str port)
        | Raise e => Raise e
        end
    end.
Proof.
  intros Hz. unfold default_hostname_adapter. rewrite Hz. simpl.
  destruct (getitem config "port"); [|reflexivity].
  destruct (getitem config "address"); reflexivity.
Qed.

(** C4. For a host configuration that carries an address, the rendered
    hostname is [https://address:sslPort] when [sslPort] is present and not
    equal to zero, and [http://address:port] with the plain port when
    [sslPort] is absent or zero; a configuration with neither [sslPort] nor
    [port] makes the rendering fail with [KeyError] on [port]. *)
Theorem hostname_rendering (config : Config) :
  (∀ address ssl,
     config !! "address" = Some address →
     config !! "sslPort" = Some ssl → py_eq_zero ssl = false →
     default_hostname_adapter config
     = Ret ("https://" +:+ py_str address +:+ ":" +:+ py_str ssl))
  ∧ (∀ address port,
       config !! "address" = Some address →
       config !! "port" = Some port →
       (config !! "sslPort" = None
        ∨ ∃ ssl, config !! "sslPort" = Some ssl ∧ py_eq_zero ssl = true) →
       default_hostname_adapter config
       = Ret ("http://" +:+ py_str address +:+ ":" +:+ py_str port))
  ∧ (config !! "sslPort" = None → config !! "port" = None →
     default_hostname_adapter config = Raise (KeyError "port")).
Proof.
  split; [|split].
  - intros address ssl Ha Hs Hnz.
    rewrite (adapter_secure config ssl Hs Hnz).
    unfold getitem. rewrite Ha. reflexivity.
  - intros address port Ha Hp Hs.
    rewrite adapter_plain.
    + unfold getitem. rewrite Hp, Ha. reflexivity.
    + unfold dict_get. destruct Hs as [Hs | (ssl & Hs & Hz)]; rewrite Hs; simpl; auto.
  - intros Hs Hp. rewrite adapter_plain.
    + unfold getitem. rewrite Hp. reflexivity.
    + unfold dict_get. rewrite Hs. reflexivity.
Qed.

Lemma hostname_rendering_witness :
  default_hostname_adapter (scenario_config (Some (VInt 8443)))
  = Ret ("https://" +:+ py_str (VStr "h1") +:+ ":" +:+ py_str (VInt 8443))
  ∧ default_hostname_adapter (scenario_config (Some (VInt 0)))
    = Ret ("http://" +:+ py_str (VStr "h1") +:+ ":" +:+ py_str (VInt 8080))
  ∧ default_hostname_adapter (∅ : Config) = Raise (KeyError "port").
Proof.
  split; [|split].
  - apply (proj1 (hostname_rendering (scenario_config (Some (VInt 8443))))
             (VStr "h1") (VInt 8443)); vm_compute; reflexivity.
  - apply (proj1 (proj2 (hostname_rendering (scenario_config (Some (VInt 0)))))
             (VStr "h1") (VInt 8080)).
    + vm_compute; reflexivity.
    + vm_compute; reflexivity.
    + right. exists (VInt 0). split; vm_compute; reflexivity.
  - apply (proj2 (proj2 (hostname_rendering ∅))); vm_compute; reflexivity.
Defined.

Example adapter_scenario :
  default_hostname_adapter (scenario_config (Some (VInt 8443))) = Ret "https://h1:8443"
  ∧ default_hostname_adapter (scenario_config (Some (VInt 0))) = Ret "http://h1:8080"
  ∧ default_hostname_adapter (scenario_config None) = Ret "http://h1:8080"
  ∧ default_hostname_adapter (<["address" := VStr "h1"]> ∅) = Raise (KeyError "port").
Proof. vm_compute. auto. Qed.

(** ** The circuit breaker set *)

Lemma breaker_test_raise (now rt : Z) (b b1 : CircuitBreaker) (e : Exc) :
  breaker_test now rt b = (Raise e, b1) → e = CircuitOpenError ∧ b1 = b.
Proof.
  unfold breaker_test. destruct (state b); try discriminate.
  destruct (now - last_change b <? rt); [|discriminate].
  intros [= <- <-]. auto.
Qed.

Lemma breaker_test_not_open (now rt : Z) (b : CircuitBreaker) :
  state b ≠ open → breaker_test now rt b = (Ret tt, b).
Proof. unfold breaker_test. destruct (state b); congruence. Qed.

Lemma rejects_open (now rt : Z) (b : CircuitBreaker) :
  rejects now rt b = true ↔ state b = open ∧ now - last_change b < rt.
Proof.
  unfold rejects, breaker_test. destruct (state b); simpl;
    try (split; [discriminate | intros [? _]; discriminate]).
  destruct (Z.ltb_spec (now - last_change b) rt); simpl; split; auto; try discriminate.
  intros [_ ?]. lia.
Qed.

Lemma test_raise (now rt : Z) (cs cs1 : list (string * CircuitBreaker)) (e : Exc) :
  test now rt cs = (Raise e, cs1) → e = CircuitOpenError.
Proof.
  revert cs1. induction cs as [|[k b] rest IH]; intros cs1; simpl; [discriminate|].
  destruct (breaker_test now rt b) as [[u|e1] b1] eqn:Hb.
  - destruct (test now rt rest) as [[rs|e2] rest1]; [discriminate|].
    intros [= <- _]. eauto.
  - intros [= <- _]. eapply breaker_test_raise, Hb.
Qed.

Lemma test_length (now rt : Z) (cs : list (string * CircuitBreaker)) :
  map fst (snd (test now rt cs)) = map fst cs.
Proof.
  induction cs as [|[k b] rest IH]; simpl; [reflexivity|].
  destruct (breaker_test now rt b) as [[u|e1] b1]; simpl; [|reflexivity].
  destruct (test now rt rest) as [[rs|e2] rest1]; simpl in *; congruence.
Qed.

Lemma test_none_open (now rt : Z) (cs : list (string * CircuitBreaker)) :
  (∀ k b, (k, b) ∈ cs → state b ≠ open) →
  test now rt cs = (Ret (map (λ _, tt) cs), cs).
Proof.
  induction cs as [|[k b] rest IH]; intros Hc; simpl; [reflexivity|].
  rewrite breaker_test_not_open by (eapply Hc; left).
  rewrite IH; [reflexivity|]. intros k1 b1 Hin. eapply Hc. right. exact Hin.
Qed.

Lemma test_some_rejects (now rt : Z) (cs : list (string * CircuitBreaker)) k b :
  (k, b) ∈ cs → rejects now rt b = true →
  fst (test now rt cs) = Raise CircuitOpenError.
Proof.
  induction cs as [|[k1 b1] rest IH]; intros Hin Hr; [inversion Hin|].
  simpl. destruct (breaker_test now rt b1) as [[u|e1] b2] eqn:Hb.
  - assert (Hin' : (k, b) ∈ rest).
    { apply elem_of_cons in Hin as [Heq|]; [|assumption].
      inversion Heq; subst. unfold rejects in Hr. rewrite Hb in Hr. discriminate. }
    specialize (IH Hin' Hr).
    destruct (test now rt rest) as [[rs|e2] rest1]; simpl in *; congruence.
  - simpl. f_equal. eapply breaker_test_raise, Hb.
Qed.

(** Whatever the breakers are, [all_closed()] yields [None] or [False]:
    the test of its result in [retry] never succeeds. *)
Lemma all_closed_falsy (now : Z) (bs : CircuitBreakerSet) :
  ∃ v cs, all_closed now bs = (Ret v, set_circuits bs cs)
          ∧ (v = VNone ∨ v = VBool false)
          ∧ map fst cs = map fst (circuits bs).
Proof.
  unfold all_closed.
  pose proof (test_length now (reset_timeout bs) (circuits bs)) as Hl.
  destruct (test now (reset_timeout bs) (circuits bs)) as [[rs|e] cs] eqn:Ht.
  - exists VNone, cs. auto.
  - apply test_raise in Ht as ->. exists (VBool false), cs. auto.
Qed.

(** When some breaker rejects attempts, [all_closed()] is [False]. *)
Lemma all_closed_some_open (now : Z) (bs : CircuitBreakerSet) k b :
  (k, b) ∈ circuits bs → rejects now (reset_timeout bs) b = true →
  fst (all_closed now bs) = Ret (VBool false).
Proof.
  intros Hin Hr. unfold all_closed.
  pose proof (test_some_rejects now (reset_timeout bs) (circuits bs) k b Hin Hr) as Ht.
  destruct (test now (reset_timeout bs) (circuits bs)) as [[rs|e] cs]; simpl in *.
  - discriminate.
  - injection Ht as ->. reflexivity.
Qed.

(** C2. When no breaker of the set is in the [open] state, [all_closed()]
    leaves the set as it is and returns [None], which is not the boolean
    [True]. *)
Theorem all_closed_returns_None (now : Z) (bs : CircuitBreakerSet) :
  (∀ k b, (k, b) ∈ circuits bs → state b ≠ open) →
  all_closed now bs = (Ret VNone, bs) ∧ VNone ≠ VBool true.
Proof.
  intros Hc. split; [|discriminate].
  unfold all_closed. rewrite test_none_open by assumption.
  destruct bs; reflexivity.
Qed.

Lemma all_closed_returns_None_witness :
  all_closed 5 (mkBreakerSet [breaker_B_closed] [ConnectionError] 3 10)
  = (Ret VNone, mkBreakerSet [breaker_B_closed] [ConnectionError] 3 10)
  ∧ VNone ≠ VBool true.
Proof.
  apply (all_closed_returns_None 5 (mkBreakerSet [breaker_B_closed] [ConnectionError] 3 10)).
  intros k b Hin. simpl in Hin. apply list_elem_of_singleton in Hin.
  injection Hin as _ ->. discriminate.
Defined.

(** ** The retry loop *)

Section RetryProperties.
Context `{Runtime}.

(** Counting over concatenated traces. *)
Lemma invocations_app (xs ys : list Event) :
  invocations (xs ++ ys) = (invocations xs + invocations ys)%nat.
Proof. unfold invocations. rewrite filter_app, length_app. reflexivity. Qed.

Lemma rejections_app (xs ys : list Event) :
  rejections (xs ++ ys) = (rejections xs + rejections ys)%nat.
Proof. unfold rejections. rewrite filter_app, length_app. reflexivity. Qed.

Lemma host_errors_app (xs ys : list Event) :
  host_errors (xs ++ ys) = (host_errors xs + host_errors ys)%nat.
Proof. unfold host_errors. rewrite filter_app, length_app. reflexivity. Qed.

Lemma sleeps_app (xs ys : list Event) :
  sleeps (xs ++ ys) = sleeps xs ++ sleeps ys.
Proof. unfold sleeps. apply omap_app. Qed.

(** The dictionary handed to the function is the stored one overridden by
    the keyword arguments of this call; it is a new object at the end of
    the heap. *)
Lemma Retriable_call_eq (r : Retriable) (new_kwargs : gmap string Value)
    (h : Heap) (en : Env) :
  Retriable_call r new_kwargs h en =
    let merged := new_kwargs ∪ heap_read h (kwargs r) in
    (fst (func r (args r) merged en), h ++ [merged],
     snd (func r (args r) merged en), [Invoked (args r) merged]).
Proof.
  unfold Retriable_call, dict_copy, dict_update.
  assert (Hrd : heap_read (h ++ [heap_read h (kwargs r)]) (length h)
                = heap_read h (kwargs r)).
  { unfold heap_read at 1. rewrite list_lookup_middle by reflexivity. reflexivity. }
  rewrite Hrd.
  replace (<[length h:=new_kwargs ∪ heap_read h (kwargs r)]> (h ++ [heap_read h (kwargs r)]))
    with (h ++ [new_kwargs ∪ heap_read h (kwargs r)]).
  2:{ rewrite insert_app_r_alt by reflexivity. rewrite Nat.sub_diag. reflexivity. }
  assert (Hrd2 : heap_read (h ++ [new_kwargs ∪ heap_read h (kwargs r)]) (length h)
                 = new_kwargs ∪ heap_read h (kwargs r)).
  { unfold heap_read at 1. rewrite list_lookup_middle by reflexivity. reflexivity. }
  rewrite Hrd2. simpl.
  destruct (func r (args r) (new_kwargs ∪ heap_read h (kwargs r)) en); reflexivity.
Qed.

(** A caught [CircuitOpenError] never ends the loop: [all_closed()] is
    [None] or [False], so the [raise] under the test is not reached. *)
Lemma handle_CircuitOpen (host : string) (c : SmartClient) (en : Env) :
  ∃ cs, handle CircuitOpenError host c en
        = (Continue, set_breakers c (set_circuits (breakers c) cs),
           [LogCircuitOpen host]).
Proof.
  unfold handle. rewrite bool_decide_eq_true_2 by reflexivity.
  destruct (all_closed_falsy (time_time en) (breakers c)) as (v & cs & -> & Hv & _).
  exists cs. destruct Hv as [-> | ->]; reflexivity.
Qed.

Lemma handle_countable (e : Exc) (host : string) (c : SmartClient) (en : Env) :
  e ≠ CircuitOpenError → e ∈ error_types (breakers c) →
  handle e host c en = (Continue, c, [LogSilenced e host]).
Proof.
  intros Hne Hin. unfold handle.
  rewrite bool_decide_eq_false_2 by assumption.
  rewrite bool_decide_eq_true_2 by assumption. reflexivity.
Qed.

Lemma handle_opaque (e : Exc) (host : string) (c : SmartClient) (en : Env) :
  e ≠ CircuitOpenError → e ∉ error_types (breakers c) →
  handle e host c en = (Done (Raise e), c, []).
Proof.
  intros Hne Hin. unfold handle.
  rewrite !bool_decide_eq_false_2 by assumption. reflexivity.
Qed.



(** Rewrites the handling of a caught [CircuitOpenError] in the goal. *)
Ltac skip_open_circuit :=
  match goal with
  | |- context [handle CircuitOpenError ?host ?c ?en] =>
      let cs := fresh "cs" in
      destruct (handle_CircuitOpen host c en) as (cs & ->)
  end.

(** The four ways one pass of the loop can go: no host could be selected;
    the breaker rejected the attempt and the loop goes on; the function was
    called and its value or its error leaves the loop; the function was
    called, its error was silenced with a warning and the loop goes on. *)
Lemma attempt_cases (r : Retriable) (send_host : bool) (st : State) :
  ∃ s st1 evs,
    attempt r send_host st = (s, st1, evs)
    ∧ ((∃ e, s = Done (Raise e) ∧ evs = [NoHost e])
       ∨ (∃ host, s = Continue
                  ∧ evs = [LogAttempt host; Rejected host; LogCircuitOpen host])
       ∨ (∃ host kw res, s = Done res
                         ∧ evs = [LogAttempt host; Invoked (args r) kw])
       ∨ (∃ host kw w, s = Continue ∧ is_warning w = true
                       ∧ evs = [LogAttempt host; Invoked (args r) kw; w])).
Proof.
  unfold attempt.
  destruct (get_hostname (client st) (env st)) as [[[host|e] c1] e1].
  2:{ do 3 eexists. split; [reflexivity|]. left. eauto. }
  destruct (context (breakers c1) host) as [b bs1].
  destruct (breaker_test (time_time e1) (reset_timeout bs1) b) as [[u|e] b1] eqn:Ht.
  - rewrite Retriable_call_eq. cbv zeta.
    set (merged := (if send_host then _ else _) ∪ _).
    destruct (fst (func r (args r) merged e1)) as [v|e].
    + do 3 eexists. split; [reflexivity|]. right. right. left.
      exists host, merged. eauto.
    + destruct (decide (e = CircuitOpenError)) as [-> | Hne].
      * skip_open_circuit. do 3 eexists. split; [reflexivity|].
        right. right. right. exists host, merged, (LogCircuitOpen host). auto.
      * match goal with |- context [handle e host ?c ?en] =>
          destruct (decide (e ∈ error_types (breakers c))) as [Hin|Hnin];
          [rewrite (handle_countable e host c en Hne Hin)
          |rewrite (handle_opaque e host c en Hne Hnin)] end.
        -- do 3 eexists. split; [reflexivity|].
           right. right. right. exists host, merged, (LogSilenced e host). auto.
        -- do 3 eexists. split; [reflexivity|]. right. right. left.
           exists host, merged. eauto.
  - apply breaker_test_raise in Ht as [-> ->]. skip_open_circuit.
    do 3 eexists. split; [reflexivity|]. right. left. exists host. auto.
Qed.

(** The backoff step sleeps once, or not at all, or fails. *)
Lemma do_backoff_cases (backoff : Backoff) (i max_tries : Z) (en : Env) :
  ∃ r e1 evb,
    do_backoff backoff i max_tries en = (r, e1, evb)
    ∧ ((r = Ret tt ∧ evb = [])
       ∨ (∃ d, r = Ret tt ∧ evb = [Slept d] ∧ 0 ≤ d ∧ i < max_tries
               ∧ backoff_truthy backoff = true)
       ∨ (∃ e, r = Raise e ∧ evb = [BackoffFailed e])).
Proof.
  unfold do_backoff, sleep.
  destruct (backoff_truthy backoff) eqn:Hb; simpl.
  2:{ do 3 eexists. split; [reflexivity|]. auto. }
  destruct (Z.ltb_spec i max_tries) as [Hlt|Hge].
  2:{ do 3 eexists. split; [reflexivity|]. auto. }
  destruct backoff as [|d|f].
  - do 3 eexists. split; [reflexivity|]. auto.
  - destruct (Z.ltb_spec d 0).
    + do 3 eexists. split; [reflexivity|]. right. right. eauto.
    + do 3 eexists. split; [reflexivity|]. right. left. exists d. auto.
  - destruct (f en) as [[d|e] e1].
    + destruct (Z.ltb_spec d 0).
      * do 3 eexists. split; [reflexivity|]. right. right. eauto.
      * do 3 eexists. split; [reflexivity|]. right. left. exists d. auto.
    + do 3 eexists. split; [reflexivity|]. right. right. eauto.
Qed.

Lemma backoff_errors_app (xs ys : list Event) :
  backoff_errors (xs ++ ys) = (backoff_errors xs + backoff_errors ys)%nat.
Proof. unfold backoff_errors. rewrite filter_app, length_app. reflexivity. Qed.

Lemma host_errors_cons (ev : Event) (evs : list Event) :
  host_errors (ev :: evs)
  = ((if is_no_host ev then 1 else 0) + host_errors evs)%nat.
Proof.
  unfold host_errors. rewrite filter_cons. destruct (is_no_host ev); reflexivity.
Qed.

Lemma rejections_cons (ev : Event) (evs : list Event) :
  rejections (ev :: evs)
  = ((if is_rejected ev then 1 else 0) + rejections evs)%nat.
Proof.
  unfold rejections. rewrite filter_cons. destruct (is_rejected ev); reflexivity.
Qed.

Lemma backoff_errors_cons (ev : Event) (evs : list Event) :
  backoff_errors (ev :: evs)
  = ((if is_backoff_failed ev then 1 else 0) + backoff_errors evs)%nat.
Proof.
  unfold backoff_errors. rewrite filter_cons.
  destruct (is_backoff_failed ev); reflexivity.
Qed.

Lemma invocations_cons (ev : Event) (evs : list Event) :
  invocations (ev :: evs)
  = ((if is_invoked ev then 1 else 0) + invocations evs)%nat.
Proof.
  unfold invocations. rewrite filter_cons.
  destruct (is_invoked ev); reflexivity.
Qed.

(** Pushes the counts of a trace through its known prefix. *)
Ltac count_events H :=
  repeat first
    [ rewrite host_errors_cons in H | rewrite rejections_cons in H
    | rewrite backoff_errors_cons in H | rewrite invocations_cons in H
    | rewrite host_errors_app in H | rewrite rejections_app in H
    | rewrite backoff_errors_app in H | rewrite invocations_app in H ];
  cbn [is_no_host is_rejected is_backoff_failed is_invoked] in H.

(** A run in which a host was selected at every pass, no pass was
    rejected, no backoff step failed and every call was silenced, uses
    every pass for one call and ends with [MaxRetriesReached]. *)
Lemma retry_loop_silenced (r : Retriable) (max_tries : Z) (backoff : Backoff)
    (send_host : bool) (n : nat) :
  ∀ (i : Z) (st st1 : State) (res : Result Value) (evs : list Event),
    retry_loop n i r max_tries backoff send_host st = (res, st1, evs) →
    host_errors evs = 0%nat →
    rejections evs = 0%nat →
    backoff_errors evs = 0%nat →
    calls_silenced evs = true →
    res = Raise MaxRetriesReached ∧ invocations evs = n.
Proof.
  induction n as [|n IH]; intros i st st1 res evs; cbn [retry_loop].
  - intros [= <- <- <-] _ _ _ _. auto.
  - destruct (attempt_cases r send_host st) as (s & st2 & ev1 & -> & Hc).
    destruct Hc as [(e & -> & ->) | [(host & -> & ->) | [(host & kw & res0 & -> & ->)
                  | (host & kw & w & -> & Hw & ->)]]].
    + intros [= <- <- <-] Hh. discriminate.
    + destruct (do_backoff backoff i max_tries (env st2)) as [[[u|e] e2] evb].
      * destruct (retry_loop n (i + 1) r max_tries backoff send_host
                    (mkState (client st2) (heap st2) e2)) as [[res3 st3] evr].
        intros [= <- <- <-] _ Hr. count_events Hr. lia.
      * intros [= <- <- <-] _ Hr. count_events Hr. lia.
    + intros [= <- <- <-] _ _ _ Hs. discriminate.
    + destruct (do_backoff_cases backoff i max_tries (env st2))
        as (rb & e2 & evb & -> & Hb).
      destruct Hb as [(-> & ->) | [(d & -> & -> & _) | (e & -> & ->)]].
      * destruct (retry_loop n (i + 1) r max_tries backoff send_host
                    (mkState (client st2) (heap st2) e2)) as [[res3 st3] evr] eqn:Hrun.
        intros [= <- <- <-] Hh Hr Hb Hs.
        count_events Hh. count_events Hr. count_events Hb.
        cbn [app calls_silenced] in Hs. rewrite Hw in Hs. cbn [andb] in Hs.
        assert (Hs' : calls_silenced evr = true) by (destruct w; try discriminate; exact Hs).
        assert (Hw0 : is_invoked w = false) by (destruct w; try discriminate; reflexivity).
        destruct (IH _ _ _ _ _ Hrun) as [-> <-];
          [destruct w; try discriminate; simpl in *; lia ..|assumption|].
        split; [reflexivity|].
        rewrite !invocations_cons, Hw0. cbn [is_invoked app]. lia.
      * destruct (retry_loop n (i + 1) r max_tries backoff send_host
                    (mkState (client st2) (heap st2) e2)) as [[res3 st3] evr] eqn:Hrun.
        intros [= <- <- <-] Hh Hr Hb Hs.
        count_events Hh. count_events Hr. count_events Hb.
        cbn [app calls_silenced] in Hs. rewrite Hw in Hs. cbn [andb] in Hs.
        assert (Hs' : calls_silenced evr = true) by (destruct w; try discriminate; exact Hs).
        assert (Hw0 : is_invoked w = false) by (destruct w; try discriminate; reflexivity).
        destruct (IH _ _ _ _ _ Hrun) as [-> <-];
          [destruct w; try discriminate; simpl in *; lia ..|assumption|].
        split; [reflexivity|].
        rewrite !invocations_cons, Hw0. cbn [is_invoked app]. lia.
      * intros [= <- <- <-] _ _ Hb. count_events Hb.
        destruct w; try discriminate; simpl in Hb; lia.
Qed.

End RetryProperties.


(** ** The retry loop on concrete runs *)

(** C3, as stated, fails: hosts A and B are selectable at every attempt,
    the breaker of A is open and the one of B closed, so that no abort is
    due; every invocation raises the countable [ConnectionError]; with
    [max_tries = 2] the run ends with [MaxRetriesReached] after one
    invocation, not two. *)
Lemma retry_countable_one_invocation :
  (∀ a kw en, fst (failing_func a kw en) = Raise ConnectionError)
  ∧ ConnectionError ∈ error_types (breakers (client state_A_open_B_closed))
  ∧ (let '(res, _, evs) := retry_run failing 2 BackoffNone false state_A_open_B_closed in
     res = Raise MaxRetriesReached
     ∧ host_errors evs = 0%nat
     ∧ evs = [LogAttempt "A"; Rejected "A"; LogCircuitOpen "A";
              LogAttempt "B"; Invoked [] ∅; LogSilenced ConnectionError "B"]
     ∧ invocations evs = 1%nat
     ∧ invocations evs ≠ Z.to_nat 2).
Proof.
  split; [reflexivity|]. split; [vm_compute; left|].
  vm_compute. repeat split; discriminate.
Qed.

(** A countable failure followed by a negative backoff: [time.sleep]
    raises, and the run ends after one invocation with that error. *)
Example retry_negative_backoff :
  retry_run failing 3 (BackoffFixed (-1)) false state_fresh
  = (Raise IOError,
     snd (fst (retry_run failing 3 (BackoffFixed (-1)) false state_fresh)),
     [LogAttempt "A"; Invoked [] ∅; LogSilenced ConnectionError "A";
      BackoffFailed IOError]).
Proof. vm_compute. reflexivity. Qed.

(** C3, amended. For [max_tries = N >= 1], when a host is selected at every
    attempt, no attempt is rejected by an open breaker, every invocation of
    the function raises an error that the loop silences, and no backoff
    step fails, [retry] invokes the function exactly [N] times and raises
    [MaxRetriesReached]. *)
Theorem retry_countable_exactly_N `{Runtime} (r : Retriable) (N : Z)
    (backoff : Backoff) (send_host : bool) (st st1 : State)
    (res : Result Value) (evs : list Event) :
  1 ≤ N →
  retry_run r N backoff send_host st = (res, st1, evs) →
  host_errors evs = 0%nat →
  rejections evs = 0%nat →
  calls_silenced evs = true →
  backoff_errors evs = 0%nat →
  invocations evs = Z.to_nat N ∧ res = Raise MaxRetriesReached.
Proof.
  intros HN Hrun Hh Hr Hs Hb. unfold retry_run in Hrun.
  destruct (retry_loop_silenced r N backoff send_host (Z.to_nat N)
              1 st st1 res evs Hrun Hh Hr Hb Hs) as [-> Hn].
  split; [exact Hn | reflexivity].
Qed.

Lemma retry_countable_exactly_N_witness :
  invocations (snd (retry_run failing 3 (BackoffFixed 5) false state_fresh))
  = Z.to_nat 3
  ∧ fst (fst (retry_run failing 3 (BackoffFixed 5) false state_fresh))
    = Raise MaxRetriesReached.
Proof.
  apply (retry_countable_exactly_N failing 3 (BackoffFixed 5) false state_fresh
           (snd (fst (retry_run failing 3 (BackoffFixed 5) false state_fresh)))).
  - lia.
  - vm_compute. reflexivity.
  - vm_compute. reflexivity.
  - vm_compute. reflexivity.
  - vm_compute. reflexivity.
  - vm_compute. reflexivity.
Defined.

(** C1. Host A is the only host and its breaker, the only known one, is
    open: every attempt is rejected with [CircuitOpenError], the loop goes
    on each time, and the run ends with [MaxRetriesReached]; the function
    is never invoked and [AllHostsUnreachableException] is not raised. *)
Theorem retry_every_breaker_open :
  (∀ k b, (k, b) ∈ circuits (breakers (client state_all_open)) →
          rejects 1 (reset_timeout (breakers (client state_all_open))) b = true)
  ∧ (let '(res, _, evs) := retry_run answering 3 BackoffNone false state_all_open in
     res = Raise MaxRetriesReached
     ∧ res ≠ Raise AllHostsUnreachableException
     ∧ evs = [LogAttempt "A"; Rejected "A"; LogCircuitOpen "A";
              LogAttempt "A"; Rejected "A"; LogCircuitOpen "A";
              LogAttempt "A"; Rejected "A"; LogCircuitOpen "A"]).
Proof.
  split.
  - intros k b Hin. vm_compute in Hin. apply list_elem_of_singleton in Hin.
    injection Hin as _ ->. reflexivity.
  - vm_compute. repeat split; discriminate.
Qed.

(** ** Backoff after a skipped attempt, and errors that are not countable *)

(** C6, as stated, fails: the breaker of A is open and the one of B is
    closed, a backoff of 5 is configured and an attempt remains; the
    attempt on A is skipped and the loop sleeps for 5 before it goes on to
    B. *)
Lemma skipped_attempt_sleeps :
  (∃ k b, (k, b) ∈ circuits (breakers (client state_A_open_B_closed))
          ∧ rejects 1 10 b = false)
  ∧ (let '(res, _, evs) :=
       retry_run answering 2 (BackoffFixed 5) false state_A_open_B_closed in
     res = Ret (VInt 42)
     ∧ evs = [LogAttempt "A"; Rejected "A"; LogCircuitOpen "A"; Slept 5;
              LogAttempt "B"; Invoked [] ∅]
     ∧ sleeps evs ≠ []).
Proof.
  split.
  - exists "B", new_breaker. split; [|reflexivity].
    vm_compute. right. left.
  - vm_compute. repeat split; discriminate.
Qed.

(** C6, amended. An attempt that is skipped because the breaker of its
    host is open, while some known breaker is not, is followed by the same
    backoff step as a failed attempt.  When a backoff is configured,
    attempts remain and the delay is not negative, the loop sleeps for the
    delay and then makes the next attempt; when no backoff is configured or
    no attempt remains, it goes on without sleeping; and when the delay is
    negative, [time.sleep] raises and [retry] ends with that error. *)
Theorem skipped_attempt_backoff `{Runtime} (n : nat) (i max_tries : Z)
    (r : Retriable) (backoff : Backoff) (send_host : bool) (st st1 : State)
    (evs : list Event) (host : string) :
  attempt r send_host st = (Continue, st1, evs) →
  Rejected host ∈ evs →
  (∃ k b, (k, b) ∈ circuits (breakers (client st1))
          ∧ rejects (time_time (env st1)) (reset_timeout (breakers (client st1))) b
            = false) →
  (∀ d e2,
     backoff_truthy backoff = true → i < max_tries →
     backoff_yields backoff (env st1) d e2 → 0 ≤ d →
     retry_loop (S n) i r max_tries backoff send_host st
     = (let '(res, st3, evr) :=
          retry_loop n (i + 1) r max_tries backoff send_host
                     (mkState (client st1) (heap st1) (time_sleep d e2)) in
        (res, st3, evs ++ [Slept d] ++ evr)))
  ∧ (backoff_truthy backoff = false ∨ max_tries ≤ i →
     retry_loop (S n) i r max_tries backoff send_host st
     = (let '(res, st3, evr) :=
          retry_loop n (i + 1) r max_tries backoff send_host
                     (mkState (client st1) (heap st1) (env st1)) in
        (res, st3, evs ++ evr)))
  ∧ (∀ d e2,
       backoff_truthy backoff = true → i < max_tries →
       backoff_yields backoff (env st1) d e2 → d < 0 →
       retry_loop (S n) i r max_tries backoff send_host st
       = (Raise IOError, mkState (client st1) (heap st1) e2,
          evs ++ [BackoffFailed IOError])).
Proof.
  intros Ha _ _. split; [|split].
  - intros d e2 Hb Hi Hy Hd. cbn [retry_loop]. rewrite Ha.
    unfold do_backoff, sleep. rewrite Hb.
    apply Z.ltb_lt in Hi. rewrite Hi. cbn [andb].
    assert (Hneg : (d <? 0) = false) by (apply Z.ltb_ge; lia).
    destruct backoff as [|d0|f]; cbn [backoff_yields] in Hy.
    + contradiction.
    + destruct Hy as [-> ->]. rewrite Hneg. reflexivity.
    + rewrite Hy, Hneg. reflexivity.
  - intros Hno. cbn [retry_loop]. rewrite Ha.
    assert (Hskip : do_backoff backoff i max_tries (env st1) = (Ret tt, env st1, [])).
    { unfold do_backoff. destruct Hno as [-> | Hge]; [reflexivity|].
      apply Z.ltb_ge in Hge. rewrite Hge, andb_false_r. reflexivity. }
    rewrite Hskip. reflexivity.
  - intros d e2 Hb Hi Hy Hd. cbn [retry_loop]. rewrite Ha.
    unfold do_backoff, sleep. rewrite Hb.
    apply Z.ltb_lt in Hi. rewrite Hi. cbn [andb].
    apply Z.ltb_lt in Hd.
    destruct backoff as [|d0|f]; cbn [backoff_yields] in Hy.
    + contradiction.
    + destruct Hy as [-> ->]. rewrite Hd. reflexivity.
    + rewrite Hy, Hd. reflexivity.
Qed.

Lemma skipped_attempt_backoff_witness :
  retry_loop 2 1 answering 2 (BackoffFixed 5) false state_A_open_B_closed
  = (let st1 := snd (fst (attempt answering false state_A_open_B_closed)) in
     let '(res, st3, evr) :=
       retry_loop 1 2 answering 2 (BackoffFixed 5) false
                  (mkState (client st1) (heap st1) (time_sleep 5 (env st1))) in
     (res, st3,
      snd (attempt answering false state_A_open_B_closed) ++ [Slept 5] ++ evr))
  ∧ retry_loop 2 2 answering 2 (BackoffFixed 5) false state_A_open_B_closed
    = (let st1 := snd (fst (attempt answering false state_A_open_B_closed)) in
       let '(res, st3, evr) :=
         retry_loop 1 3 answering 2 (BackoffFixed 5) false
                    (mkState (client st1) (heap st1) (env st1)) in
       (res, st3, snd (attempt answering false state_A_open_B_closed) ++ evr))
  ∧ retry_loop 2 1 answering 2 (BackoffFixed (-5)) false state_A_open_B_closed
    = (let st1 := snd (fst (attempt answering false state_A_open_B_closed)) in
       (Raise IOError, mkState (client st1) (heap st1) (env st1),
        snd (attempt answering false state_A_open_B_closed)
        ++ [BackoffFailed IOError])).
Proof.
  assert (Ha : attempt answering false state_A_open_B_closed
               = (Continue, snd (fst (attempt answering false state_A_open_B_closed)),
                  snd (attempt answering false state_A_open_B_closed)))
    by (vm_compute; reflexivity).
  assert (Hr : Rejected "A" ∈ snd (attempt answering false state_A_open_B_closed))
    by (vm_compute; right; left).
  assert (Ho : ∃ k b,
             (k, b) ∈ circuits (breakers (client
                         (snd (fst (attempt answering false state_A_open_B_closed)))))
             ∧ rejects (time_time (env (snd (fst (attempt answering false
                                                    state_A_open_B_closed)))))
                       (reset_timeout (breakers (client
                          (snd (fst (attempt answering false state_A_open_B_closed))))))
                       b = false).
  { exists "B", new_breaker. split; [vm_compute; right; left | reflexivity]. }
  split; [|split].
  - apply (proj1 (skipped_attempt_backoff 1 1 2 answering (BackoffFixed 5) false
                    state_A_open_B_closed _ _ "A" Ha Hr Ho) 5 _).
    + reflexivity.
    + lia.
    + split; reflexivity.
    + lia.
  - apply (proj1 (proj2 (skipped_attempt_backoff 1 2 2 answering (BackoffFixed 5) false
                           state_A_open_B_closed _ _ "A" Ha Hr Ho))).
    right. lia.
  - apply (proj2 (proj2 (skipped_attempt_backoff 1 1 2 answering (BackoffFixed (-5)) false
                           state_A_open_B_closed _ _ "A" Ha Hr Ho)) (-5) _).
    + reflexivity.
    + lia.
    + split; reflexivity.
    + lia.
Defined.



(** ** The host pool *)

Lemma next_empty (u : UpdateableIterator) :
  saved (_iter u) = [] → next u = (Raise (_stop_exc u), u).
Proof.
  intros He. unfold next, cycle_next. rewrite He. simpl.
  destruct u; reflexivity.
Qed.

(** An error of [get_hostname()] leaves the loop at once. *)
Lemma retry_loop_no_host `{Runtime} (n : nat) (i max_tries : Z) (r : Retriable)
    (backoff : Backoff) (send_host : bool) (st : State) e c1 e1 :
  get_hostname (client st) (env st) = (Raise e, c1, e1) →
  retry_loop (S n) i r max_tries backoff send_host st
  = (Raise e, mkState c1 (heap st) e1, [NoHost e]).
Proof. intros Hg. simpl. unfold attempt. rewrite Hg. reflexivity. Qed.

Lemma get_host_empty `{Runtime} (p : BackendServiceProvider) (en : Env) :
  supports_watching (backend p) = true →
  _loaded p = true →
  is_Some (_watcher p) →
  saved (_iter (_hosts_iter p)) = [] →
  get_host p en = (Raise (_stop_exc (_hosts_iter p)), p, en).
Proof.
  intros Hw Hl Hs He. unfold get_host, next_host, _hosts_iterator.
  rewrite Hw, Hl. simpl. rewrite Hw.
  rewrite bool_decide_eq_true_2 by assumption. simpl.
  rewrite next_empty by assumption. destruct p; reflexivity.
Qed.

(** C7. The iterator over an empty generation raises its stop exception,
    which the provider sets to [NoHostsAvailableException]; an error
    [NoHostsAvailableException] of [get_hostname()] ends [retry] on the
    attempt that meets it, with no call, no sleep and no later attempt; and
    so does a loaded provider of a watching backend whose generation is
    empty, the state being left as it was. *)
Theorem empty_generation_NoHostsAvailable `{Runtime} (n : nat) (i max_tries : Z)
    (r : Retriable) (backoff : Backoff) (send_host : bool) (st : State) :
  (∀ u, saved (_iter u) = [] → next u = (Raise (_stop_exc u), u))
  ∧ (∀ c1 e1,
       get_hostname (client st) (env st) = (Raise NoHostsAvailableException, c1, e1) →
       retry_loop (S n) i r max_tries backoff send_host st
       = (Raise NoHostsAvailableException, mkState c1 (heap st) e1,
          [NoHost NoHostsAvailableException]))
  ∧ (∀ p,
       _hosts_provider (client st) = Some p →
       supports_watching (backend p) = true →
       _loaded p = true →
       is_Some (_watcher p) →
       saved (_iter (_hosts_iter p)) = [] →
       _stop_exc (_hosts_iter p) = NoHostsAvailableException →
       retry_loop (S n) i r max_tries backoff send_host st
       = (Raise NoHostsAvailableException, st, [NoHost NoHostsAvailableException])).
Proof.
  split; [exact next_empty|]. split.
  - intros c1 e1 Hg. apply retry_loop_no_host. exact Hg.
  - intros p Hp Hw Hl Hs He Hx.
    rewrite (retry_loop_no_host n i max_tries r backoff send_host st
               NoHostsAvailableException (client st) (env st)).
    + destruct st; reflexivity.
    + unfold get_hostname, provider_get_hostname. rewrite Hp.
      rewrite get_host_empty by assumption. rewrite Hx.
      destruct (client st); simpl in *. rewrite Hp. reflexivity.
Qed.

Lemma empty_generation_NoHostsAvailable_witness :
  retry_loop 3 1 answering 3 (BackoffFixed 5) false
             (mkState (sim_provider_client sim_provider_empty) [∅] (mkSimEnv 0 0))
  = (Raise NoHostsAvailableException,
     mkState (sim_provider_client sim_provider_empty) [∅] (mkSimEnv 0 0),
     [NoHost NoHostsAvailableException]).
Proof.
  apply (proj2 (proj2 (empty_generation_NoHostsAvailable 2 1 3 answering
                         (BackoffFixed 5) false
                         (mkState (sim_provider_client sim_provider_empty) [∅]
                                  (mkSimEnv 0 0))))
         sim_provider_empty).
  - reflexivity.
  - reflexivity.
  - reflexivity.
  - vm_compute. eexists. reflexivity.
  - reflexivity.
  - reflexivity.
Defined.

(** C5. For a backend that does not support watching, every call of
    [get_host()] stops at the attribute [_last_udpated], which no code
    assigns: it raises [AttributeError] before the threshold is compared,
    fetches nothing and yields no host. *)
Theorem get_host_without_watching `{Runtime} (p : BackendServiceProvider)
    (en : Env) :
  supports_watching (backend p) = false →
  get_host p en = (Raise (AttributeError "_last_udpated"), p, en).
Proof. intros Hw. unfold get_host. rewrite Hw. reflexivity. Qed.

Lemma get_host_without_watching_witness :
  get_host (sim_provider false ["n1"; "n2"]) (mkSimEnv 100 0)
  = (Raise (AttributeError "_last_udpated"),
     sim_provider false ["n1"; "n2"], mkSimEnv 100 0).
Proof.
  apply (get_host_without_watching (sim_provider false ["n1"; "n2"]) (mkSimEnv 100 0)).
  reflexivity.
Defined.

(** ** [retry] as a decorator *)

(** The closure runs the same loop as the direct call on the [Retriable]
    built from its arguments, and replaces a returned value by [None]. *)
Lemma wrapper_call_eq `{Runtime} (f : Func) (max_tries : Z) (backoff : Backoff)
    (send_host : bool) (a : list Value) (kw : gmap string Value) (st : State) :
  wrapper_call f max_tries backoff send_host a kw st =
    let '(res, st1, evs) :=
      retry_run (fst (Retriable_init f a kw (heap st))) max_tries backoff send_host
                (mkState (client st) (snd (Retriable_init f a kw (heap st))) (env st)) in
    (match res with Ret _ => Ret VNone | Raise e => Raise e end, st1, evs).
Proof.
  unfold wrapper_call, retry. simpl.
  destruct (retry_run _ _ _ _ _) as [[[v|e] st1] evs]; reflexivity.
Qed.

(** C9. A function that answers 42, decorated with [retry] and called with
    the argument 7: [retry] on the function yields the closure; the direct
    call of [retry] on the [Retriable] built from the function and the
    argument returns 42; the decorated call makes the same invocation, ends
    in the same state and returns [None]. *)
Theorem decorated_call_returns_None :
  let st := mkState (sim_client ["A"]) [] (mkSimEnv 0 0) in
  let r := fst (Retriable_init answering_func [VInt 7] ∅ (heap st)) in
  let h := snd (Retriable_init answering_func [VInt 7] ∅ (heap st)) in
  retry (ArgFunc answering_func) 3 BackoffNone false st
  = (Wrapper answering_func 3 BackoffNone false, st, [])
  ∧ ∃ st1,
      retry (ArgRetriable r) 3 BackoffNone false (mkState (client st) h (env st))
      = (Outcome (Ret (VInt 42)), st1, [LogAttempt "A"; Invoked [VInt 7] ∅])
      ∧ wrapper_call answering_func 3 BackoffNone false [VInt 7] ∅ st
        = (Ret VNone, st1, [LogAttempt "A"; Invoked [VInt 7] ∅]).
Proof.
  split; [reflexivity|]. eexists. split; vm_compute; reflexivity.
Qed.

(** ** [Retriable] *)

(** The keys of the overrides win, the other keys keep the stored value. *)
Lemma merged_lookup (ov d : gmap string Value) (k : string) :
  (ov ∪ d) !! k = match ov !! k with Some v => Some v | None => d !! k end.
Proof.
  rewrite lookup_union. destruct (ov !! k), (d !! k); reflexivity.
Qed.

Lemma call_many_heap `{Runtime} (r : Retriable)
    (overrides : list (gmap string Value)) :
  ∀ (h : Heap) (en : Env),
    (kwargs r < length h)%nat →
    call_many r overrides h en
    = (fst (calls_with_overrides (func r) (args r) (heap_read h (kwargs r))
                                 overrides en),
       h ++ map (λ ov, ov ∪ heap_read h (kwargs r)) overrides,
       snd (calls_with_overrides (func r) (args r) (heap_read h (kwargs r))
                                 overrides en),
       map (λ ov, Invoked (args r) (ov ∪ heap_read h (kwargs r))) overrides).
Proof.
  induction overrides as [|ov rest IH]; intros h en Hlt; cbn [call_many calls_with_overrides].
  - simpl. rewrite app_nil_r. reflexivity.
  - rewrite Retriable_call_eq. cbv zeta.
    set (d := heap_read h (kwargs r)).
    assert (Hlt1 : (kwargs r < length (h ++ [ov ∪ d]))%nat)
      by (rewrite length_app; simpl; lia).
    assert (Hd : heap_read (h ++ [ov ∪ d]) (kwargs r) = d).
    { unfold heap_read. rewrite lookup_app_l by assumption. reflexivity. }
    destruct (func r (args r) (ov ∪ d) en) as [res e1]. cbn [fst snd].
    rewrite (IH (h ++ [ov ∪ d]) e1 Hlt1), Hd.
    destruct (calls_with_overrides (func r) (args r) d rest e1) as [ress e2].
    cbn [fst snd map app]. rewrite <- app_assoc. reflexivity.
Qed.

(** C10. Invoking a [Retriable] once for each of any list of override
    dictionaries returns the results, and leaves the environment, of the
    stored function applied in order to the stored positional arguments
    and to the stored keyword arguments overridden by the overrides of that
    invocation alone; every dictionary that was in the heap, the stored
    keyword arguments among them, is left as it was, and the record of the
    function, the positional arguments and the reference is not
    assigned. *)
Theorem Retriable_reinvocable `{Runtime} (r : Retriable)
    (overrides : list (gmap string Value)) (h : Heap) (en : Env) :
  (kwargs r < length h)%nat →
  let stored := heap_read h (kwargs r) in
  let '(results, h1, e1, evs) := call_many r overrides h en in
  (results, e1) = calls_with_overrides (func r) (args r) stored overrides en
  ∧ take (length h) h1 = h
  ∧ heap_read h1 (kwargs r) = stored
  ∧ evs = map (λ ov, Invoked (args r) (ov ∪ stored)) overrides
  ∧ ∀ ov k, (ov ∪ stored) !! k
            = match ov !! k with
              | Some v => Some v
              | None => stored !! k
              end.
Proof.
  intros Hlt stored. rewrite (call_many_heap r overrides h en Hlt).
  fold stored. split; [|split; [|split; [|split]]].
  - destruct (calls_with_overrides (func r) (args r) stored overrides en); reflexivity.
  - apply take_app_length.
  - unfold heap_read. rewrite lookup_app_l by assumption. reflexivity.
  - reflexivity.
  - intros ov k. apply merged_lookup.
Qed.

Lemma Retriable_reinvocable_witness :
  let r := mkRetriable echo_func [VInt 7] 0 in
  let h : Heap := [{[ "timeout" := VInt 3 ]}] in
  let overrides : list (gmap string Value) :=
    [{[ "host" := VStr "A" ]}; {[ "timeout" := VInt 9 ]}; ∅] in
  let '(results, h1, e1, evs) := call_many r overrides h (mkSimEnv 0 0) in
  ((results, e1) = calls_with_overrides (func r) (args r) (heap_read h (kwargs r))
                                        overrides (mkSimEnv 0 0)
   ∧ take (length h) h1 = h
   ∧ heap_read h1 (kwargs r) = heap_read h (kwargs r)
   ∧ evs = map (λ ov, Invoked (args r) (ov ∪ heap_read h (kwargs r))) overrides
   ∧ ∀ ov k, (ov ∪ heap_read h (kwargs r)) !! k
             = match ov !! k with
               | Some v => Some v
               | None => heap_read h (kwargs r) !! k
               end)
  ∧ results = [Ret (VStr "A"); Ret VNone; Ret VNone]
  ∧ e1 = mkSimEnv 3 15.
Proof.
  intros r h overrides.
  pose proof (Retriable_reinvocable r overrides h (mkSimEnv 0 0 : @Env sim_runtime)
                ltac:(simpl; lia)) as Hw.
  cbv zeta in Hw.
  destruct (call_many r overrides h (mkSimEnv 0 0)) as [[[results h1] e1] evs] eqn:Hrun.
  split; [exact Hw|].
  vm_compute in Hrun. injection Hrun as <- _ <- _. split; reflexivity.
Defined.

Example call_many_trace :
  snd (call_many (mkRetriable answering_func [VInt 7] 0)
         [{[ "host" := VStr "A" ]}; {[ "timeout" := VInt 9 ]}]
         [{[ "timeout" := VInt 3 ]}] (mkSimEnv 0 0))
  = [Invoked [VInt 7] (<["host" := VStr "A"]> {[ "timeout" := VInt 3 ]});
     Invoked [VInt 7] {[ "timeout" := VInt 9 ]}].
Proof. vm_compute. reflexivity. Qed.

(** * Further properties of the code *)

(** ** Round-robin iteration ([service.py], [client.py]) *)

Lemma cycle_next_valid {A} (c : cycle A) :
  (pos c < length (saved c))%nat →
  ∃ x, saved c !! pos c = Some x
       ∧ cycle_next c = (Ret x, mkCycle (saved c) (S (pos c) mod length (saved c))).
Proof.
  intros Hlt. destruct (lookup_lt_is_Some_2 _ _ Hlt) as [x Hx].
  exists x. split; [exact Hx|]. unfold cycle_next. rewrite Hx. do 2 f_equal.
  destruct (Nat.eqb_spec (S (pos c)) (length (saved c))) as [Heq|Hne].
  - rewrite Heq, Nat.Div0.mod_same. reflexivity.
  - rewrite Nat.mod_small by lia. reflexivity.
Qed.

Lemma cycle_take_lookup {A} (k : nat) :
  ∀ (c : cycle A) (j : nat),
    (pos c < length (saved c))%nat → (j < k)%nat →
    fst (cycle_take k c) !! j
    = Some (default (Raise StopIteration)
              (Ret <$> saved c !! ((pos c + j) mod length (saved c))%nat)).
Proof.
  induction k as [|k IH]; intros c j Hlt Hj; [lia|].
  cbn [cycle_take]. destruct (cycle_next_valid c Hlt) as (x & Hx & ->).
  set (c1 := mkCycle (saved c) (S (pos c) mod length (saved c))).
  assert (Hlt1 : (pos c1 < length (saved c1))%nat).
  { unfold c1. cbn [pos saved]. apply Nat.mod_upper_bound. lia. }
  specialize (IH c1). destruct (cycle_take k c1) as [rs c2]. cbn [fst] in *.
  destruct j as [|j].
  - cbn [lookup list_lookup]. rewrite Nat.add_0_r, Nat.mod_small by lia.
    rewrite Hx. reflexivity.
  - change ((Ret x :: rs) !! S j) with (rs !! j).
    rewrite (IH j Hlt1) by lia. unfold c1. cbn [pos saved].
    rewrite Nat.Div0.add_mod_idemp_l.
    replace (S (pos c) + j)%nat with (pos c + S j)%nat by lia. reflexivity.
Qed.

Lemma next_valid (u : UpdateableIterator) :
  (pos (_iter u) < length (saved (_iter u)))%nat →
  ∃ x, saved (_iter u) !! pos (_iter u) = Some x
       ∧ next u = (Ret x,
                   mkUpdateableIterator (items u)
                     (mkCycle (saved (_iter u))
                              (S (pos (_iter u)) mod length (saved (_iter u))))
                     (_stop_exc u)).
Proof.
  intros Hlt. destruct (cycle_next_valid (_iter u) Hlt) as (x & Hx & Hn).
  exists x. split; [exact Hx|]. unfold next. rewrite Hn. reflexivity.
Qed.

Lemma next_n_lookup (k : nat) :
  ∀ (u : UpdateableIterator) (j : nat),
    (pos (_iter u) < length (saved (_iter u)))%nat → (j < k)%nat →
    ∃ x, saved (_iter u) !! ((pos (_iter u) + j) mod length (saved (_iter u)))%nat
         = Some x
         ∧ fst (next_n k u) !! j = Some (Ret x).
Proof.
  induction k as [|k IH]; intros u j Hlt Hj; [lia|].
  cbn [next_n]. destruct (next_valid u Hlt) as (x & Hx & ->).
  set (u1 := mkUpdateableIterator _ _ _).
  assert (Hlt1 : (pos (_iter u1) < length (saved (_iter u1)))%nat).
  { unfold u1. cbn [_iter pos saved]. apply Nat.mod_upper_bound. lia. }
  specialize (IH u1). destruct (next_n k u1) as [rs u2]. cbn [fst] in *.
  destruct j as [|j].
  - exists x. rewrite Nat.add_0_r, Nat.mod_small by lia. auto.
  - destruct (IH j Hlt1 ltac:(lia)) as (y & Hy & Hr).
    exists y. split; [|exact Hr].
    unfold u1 in Hy. cbn [_iter pos saved] in Hy.
    rewrite Nat.Div0.add_mod_idemp_l in Hy.
    replace (pos (_iter u) + S j)%nat with (S (pos (_iter u)) + j)%nat by lia.
    exact Hy.
Qed.

Lemma next_n_items (k : nat) :
  ∀ u, items (snd (next_n k u)) = items u
       ∧ _stop_exc (snd (next_n k u)) = _stop_exc u
       ∧ saved (_iter (snd (next_n k u))) = saved (_iter u).
Proof.
  induction k as [|k IH]; intros u; [auto|].
  cbn [next_n]. destruct (next u) as [r u1] eqn:Hn.
  specialize (IH u1). destruct (next_n k u1) as [rs u2]. cbn [snd] in *.
  assert (Hu1 : items u1 = items u ∧ _stop_exc u1 = _stop_exc u
                ∧ saved (_iter u1) = saved (_iter u)).
  { unfold next, cycle_next in Hn.
    destruct (saved (_iter u) !! pos (_iter u)).
    - injection Hn as _ <-. auto.
    - injection Hn as _ <-. auto. }
  destruct IH as (-> & -> & ->). exact Hu1.
Qed.

(** X1. After [modify(items)] with a list that is not empty, the calls of
    [next()] yield the items of that list in order and start over at its
    end, wherever the iterator stood before; the iterator keeps the list
    and its stop exception. *)
Theorem modify_round_robin (u : UpdateableIterator) (its : list Config)
    (k j : nat) :
  its ≠ [] → (j < k)%nat →
  (∃ x, its !! (j mod length its)%nat = Some x
        ∧ fst (next_n k (modify u its)) !! j = Some (Ret x))
  ∧ items (snd (next_n k (modify u its))) = its
  ∧ _stop_exc (snd (next_n k (modify u its))) = _stop_exc u.
Proof.
  intros Hne Hj.
  assert (Hlt : (pos (_iter (modify u its)) < length (saved (_iter (modify u its))))%nat).
  { simpl. destruct its; [congruence | simpl; lia]. }
  split; [|split].
  - destruct (next_n_lookup k (modify u its) j Hlt Hj) as (x & Hx & Hr).
    exists x. split; [exact Hx | exact Hr].
  - destruct (next_n_items k (modify u its)) as (-> & _ & _). reflexivity.
  - destruct (next_n_items k (modify u its)) as (_ & -> & _). reflexivity.
Qed.

Lemma modify_round_robin_witness :
  let a : Config := {[ "address" := VStr "a" ]} in
  let b : Config := {[ "address" := VStr "b" ]} in
  (∃ x, [a; b] !! (2 mod length [a; b])%nat = Some x
        ∧ fst (next_n 3 (modify (UpdateableIterator_init [b] StopIteration) [a; b])) !! 2%nat
          = Some (Ret x))
  ∧ items (snd (next_n 3 (modify (UpdateableIterator_init [b] StopIteration) [a; b])))
    = [a; b]
  ∧ _stop_exc (snd (next_n 3 (modify (UpdateableIterator_init [b] StopIteration) [a; b])))
    = StopIteration.
Proof.
  intros a b.
  apply (modify_round_robin (UpdateableIterator_init [b] StopIteration) [a; b] 3 2).
  - discriminate.
  - lia.
Defined.

Lemma get_hostname_static `{Runtime} (c : SmartClient) (cyc : cycle string)
    (en : Env) :
  _hosts_provider c = None → _hosts_cycle c = Some cyc →
  (pos cyc < length (saved cyc))%nat →
  ∃ x, saved cyc !! pos cyc = Some x
       ∧ get_hostname c en
         = (Ret x,
            mkClient (client_name c) (breakers c)
              (Some (mkCycle (saved cyc) (S (pos cyc) mod length (saved cyc))))
              None,
            en).
Proof.
  intros Hp Hc Hlt. destruct (cycle_next_valid cyc Hlt) as (x & Hx & Hn).
  exists x. split; [exact Hx|]. unfold get_hostname. rewrite Hp, Hc, Hn.
  reflexivity.
Qed.

Lemma get_hostname_n_static_frame `{Runtime} (k : nat) :
  ∀ (c : SmartClient) (cyc : cycle string) (en : Env),
    _hosts_provider c = None → _hosts_cycle c = Some cyc →
    (pos cyc < length (saved cyc))%nat →
    snd (get_hostname_n k c en) = en
    ∧ breakers (snd (fst (get_hostname_n k c en))) = breakers c.
Proof.
  induction k as [|k IH]; intros c cyc en Hp Hc Hlt; [auto|].
  cbn [get_hostname_n].
  destruct (get_hostname_static c cyc en Hp Hc Hlt) as (x & Hx & ->).
  set (cyc1 := mkCycle (saved cyc) (S (pos cyc) mod length (saved cyc))).
  set (c1 := mkClient (client_name c) (breakers c) (Some cyc1) None).
  assert (Hlt1 : (pos cyc1 < length (saved cyc1))%nat).
  { unfold cyc1. cbn [pos saved]. apply Nat.mod_upper_bound. lia. }
  specialize (IH c1 cyc1 en eq_refl eq_refl Hlt1).
  destruct (get_hostname_n k c1 en) as [[rs c2] e2]. exact IH.
Qed.

Lemma get_hostname_n_static_lookup `{Runtime} (k : nat) :
  ∀ (c : SmartClient) (cyc : cycle string) (en : Env) (j : nat),
    _hosts_provider c = None → _hosts_cycle c = Some cyc →
    (pos cyc < length (saved cyc))%nat → (j < k)%nat →
    ∃ h, saved cyc !! ((pos cyc + j) mod length (saved cyc))%nat = Some h
         ∧ fst (fst (get_hostname_n k c en)) !! j = Some (Ret h).
Proof.
  induction k as [|k IH]; intros c cyc en j Hp Hc Hlt Hj; [lia|].
  cbn [get_hostname_n].
  destruct (get_hostname_static c cyc en Hp Hc Hlt) as (x & Hx & ->).
  set (cyc1 := mkCycle (saved cyc) (S (pos cyc) mod length (saved cyc))).
  set (c1 := mkClient (client_name c) (breakers c) (Some cyc1) None).
  assert (Hlt1 : (pos cyc1 < length (saved cyc1))%nat).
  { unfold cyc1. cbn [pos saved]. apply Nat.mod_upper_bound. lia. }
  specialize (IH c1 cyc1 en).
  destruct (get_hostname_n k c1 en) as [[rs c2] e2]. cbn [fst] in *.
  destruct j as [|j].
  - exists x. rewrite Nat.add_0_r, Nat.mod_small by lia. auto.
  - destruct (IH j eq_refl eq_refl Hlt1 ltac:(lia)) as (y & Hy & Hr).
    exists y. split; [|exact Hr].
    unfold cyc1 in Hy. cbn [pos saved] in Hy.
    rewrite Nat.Div0.add_mod_idemp_l in Hy.
    replace (pos cyc + S j)%nat with (S (pos cyc) + j)%nat by lia.
    exact Hy.
Qed.

(** X2. A client built over a static list of hosts that is not empty hands
    out the hosts in order and starts over at the end of the list; selecting
    a host never fails, and touches neither the environment nor the
    breakers. *)
Theorem static_hosts_round_robin `{Runtime} (nm : string)
    (errors : option (list Exc)) (hosts : list string) (mf : nat) (rt : Z)
    (en : Env) (k j : nat) :
  hosts ≠ [] → (j < k)%nat →
  let c := SmartClient_init nm errors None (Some hosts) mf rt in
  (∃ h, hosts !! (j mod length hosts)%nat = Some h
        ∧ fst (fst (get_hostname_n k c en)) !! j = Some (Ret h))
  ∧ snd (get_hostname_n k c en) = en
  ∧ breakers (snd (fst (get_hostname_n k c en))) = breakers c.
Proof.
  intros Hne Hj c.
  destruct hosts as [|h0 hs]; [congruence|].
  assert (Hlt : (pos (it_cycle (h0 :: hs)) < length (saved (it_cycle (h0 :: hs))))%nat)
    by (simpl; lia).
  split.
  - exact (get_hostname_n_static_lookup k c (it_cycle (h0 :: hs)) en j
             eq_refl eq_refl Hlt Hj).
  - exact (get_hostname_n_static_frame k c (it_cycle (h0 :: hs)) en
             eq_refl eq_refl Hlt).
Qed.

Lemma static_hosts_round_robin_witness :
  let c := SmartClient_init "svc" None None (Some ["A"; "B"; "C"]) 3 10 in
  let en : @Env sim_runtime := mkSimEnv 0 0 in
  (∃ h, ["A"; "B"; "C"] !! (4 mod length ["A"; "B"; "C"])%nat = Some h
        ∧ fst (fst (get_hostname_n 5 c en)) !! 4%nat = Some (Ret h))
  ∧ snd (get_hostname_n 5 c en) = en
  ∧ breakers (snd (fst (get_hostname_n 5 c en))) = breakers c.
Proof.
  apply (static_hosts_round_robin "svc" None ["A"; "B"; "C"] 3 10
           (mkSimEnv 0 0 : @Env sim_runtime) 5 4).
  - discriminate.
  - lia.
Defined.

(** ** The host pool over a registry ([service.py]) *)

Lemma next_ret (u u1 : UpdateableIterator) (x : Config) :
  next u = (Ret x, u1) →
  x ∈ saved (_iter u) ∧ saved (_iter u1) = saved (_iter u).
Proof.
  unfold next, cycle_next.
  destruct (saved (_iter u) !! pos (_iter u)) as [y|] eqn:Hy.
  - intros [= <- <-]. split; [|reflexivity].
    eapply list_elem_of_lookup_2, Hy.
  - discriminate.
Qed.

Lemma next_saved (u : UpdateableIterator) :
  saved (_iter (snd (next u))) = saved (_iter u).
Proof.
  unfold next, cycle_next.
  destruct (saved (_iter u) !! pos (_iter u)); reflexivity.
Qed.

Lemma next_n_ret (k : nat) :
  ∀ (u : UpdateableIterator) (j : nat) (x : Config),
    fst (next_n k u) !! j = Some (Ret x) → x ∈ saved (_iter u).
Proof.
  induction k as [|k IH]; intros u j x; [simpl; rewrite lookup_nil; discriminate|].
  cbn [next_n]. pose proof (next_saved u) as Hs.
  destruct (next u) as [r u1] eqn:Hn. cbn [snd] in Hs.
  specialize (IH u1). destruct (next_n k u1) as [rs u2]. cbn [fst] in *.
  destruct j as [|j].
  - intros [= ->]. eapply next_ret, Hn.
  - intros Hj. rewrite <- Hs. eapply IH, Hj.
Qed.

(** X3. [_reset_hosts(hosts)] makes the list that [random.shuffle] produced
    from [hosts] the generation of the provider and of its iterator, whose
    cycle starts again at the first host of that list and walks it round
    robin; it leaves the environment as the shuffle left it and stamps the
    time read after the shuffle; it changes neither the loaded flag nor the
    watcher.  When the shuffle permutes its argument, the generation is a
    permutation of [hosts] and every host the iterator yields from then on
    is one of [hosts]. *)
Theorem reset_hosts_generation `{Runtime} (p : BackendServiceProvider)
    (hosts : list Config) (en : Env) :
  let shuffled := fst (random_shuffle hosts en) in
  let e_sh := snd (random_shuffle hosts en) in
  let p1 := fst (_reset_hosts p hosts en) in
  let e1 := snd (_reset_hosts p hosts en) in
  _hosts p1 = shuffled
  ∧ _hosts_iter p1 = modify (_hosts_iter p) shuffled
  ∧ items (_hosts_iter p1) = shuffled
  ∧ e1 = e_sh
  ∧ _last_updated p1 = Some (time_time e_sh)
  ∧ _loaded p1 = _loaded p
  ∧ _watcher p1 = _watcher p
  ∧ (shuffled ≠ [] →
     ∀ k j, (j < k)%nat →
       fst (next_n k (_hosts_iter p1)) !! j
       = Ret <$> shuffled !! (j mod length shuffled)%nat)
  ∧ (shuffled ≡ₚ hosts →
     _hosts p1 ≡ₚ hosts
     ∧ ∀ k j x, fst (next_n k (_hosts_iter p1)) !! j = Some (Ret x) → x ∈ hosts).
Proof.
  unfold _reset_hosts.
  destruct (random_shuffle hosts en) as [shuffled e1]. cbn [fst snd].
  do 7 (split; [reflexivity|]). split.
  - intros Hne k j Hj. cbn [_hosts_iter].
    destruct (next_n_lookup k (modify (_hosts_iter p) shuffled) j) as (x & Hx & Hn);
      [|exact Hj|].
    + cbn. destruct shuffled; [congruence | cbn; lia].
    + rewrite Hn. cbn in Hx. rewrite Hx. reflexivity.
  - intros Hp. split; [exact Hp|].
    intros k j x Hx. apply next_n_ret in Hx. simpl in Hx.
    rewrite <- Hp. exact Hx.
Qed.

Lemma reset_hosts_generation_witness :
  let a : Config := {[ "address" := VStr "a" ]} in
  let b : Config := {[ "address" := VStr "b" ]} in
  let p1 := fst (@_reset_hosts reversing_runtime reversing_provider [a; b]
                   (mkSimEnv 7 0)) in
  _hosts p1 = [b; a]
  ∧ _last_updated p1 = Some 8
  ∧ fst (next_n 3 (_hosts_iter p1)) !! 2%nat = Some (Ret b)
  ∧ ∀ k j x, fst (next_n k (_hosts_iter p1)) !! j = Some (Ret x) → x ∈ [a; b].
Proof.
  intros a b p1.
  destruct (@reset_hosts_generation reversing_runtime reversing_provider [a; b]
              (mkSimEnv 7 0))
    as (Hh & _ & _ & _ & Ht & _ & _ & Hrr & Hperm).
  split; [exact Hh|]. split; [exact Ht|]. split.
  - unfold p1. rewrite Hrr; [reflexivity | discriminate | lia].
  - apply Hperm. symmetry. apply (Permutation_rev [a; b]).
Defined.

Lemma get_host_first_empty `{Runtime} (p : BackendServiceProvider)
    (en e1 e2 : Env) (w : Watcher) :
  (∀ l e, fst (random_shuffle l e) ≡ₚ l) →
  supports_watching (backend p) = true →
  _loaded p = false → _watcher p = None →
  get_children (backend p) (_node p) en = (Ret [], e1) →
  watch_all (backend p) (_node p) (snd (random_shuffle [] e1)) = (Ret w, e2) →
  ∃ p1, get_host p en = (Raise (_stop_exc (_hosts_iter p)), p1, e2)
        ∧ _loaded p1 = true ∧ _watcher p1 = Some w ∧ _hosts p1 = [].
Proof.
  intros Hperm Hw Hl Hn Hc Hwa.
  unfold get_host. rewrite Hw. cbn [negb].
  unfold next_host, _hosts_iterator. rewrite Hl. cbn [negb].
  unfold _load, refresh, _get_hosts. rewrite Hc. cbn [get_nodes].
  unfold _reset_hosts.
  pose proof (Hperm [] e1) as Hp.
  destruct (random_shuffle [] e1) as [shuffled e1']. cbn [fst snd] in *.
  apply Permutation_nil_r in Hp. subst shuffled.
  unfold set_loaded, _watch. simpl. rewrite Hw, Hn. simpl.
  rewrite Hwa. simpl.
  eexists. split; [reflexivity|]. auto.
Qed.

(** X4. The first access to a new provider over a watching registry that
    reports no children loads the empty generation, installs the watch and
    raises [NoHostsAvailableException]; the provider is then loaded and
    watched. *)
Theorem first_access_no_children `{Runtime} (nm : string) (b : Backend)
    (node : option string) (adapter : Config → Result string)
    (en e1 e2 : Env) (w : Watcher) :
  (∀ l e, fst (random_shuffle l e) ≡ₚ l) →
  supports_watching b = true →
  let p := BackendServiceProvider_init nm b node adapter in
  get_children b (_node p) en = (Ret [], e1) →
  watch_all b (_node p) (snd (random_shuffle [] e1)) = (Ret w, e2) →
  ∃ p1, get_host p en = (Raise NoHostsAvailableException, p1, e2)
        ∧ _loaded p1 = true ∧ _watcher p1 = Some w ∧ _hosts p1 = [].
Proof.
  intros Hperm Hw p Hc Hwa.
  exact (get_host_first_empty p en e1 e2 w Hperm Hw eq_refl eq_refl Hc Hwa).
Qed.

Lemma first_access_no_children_witness :
  ∃ p1, get_host (BackendServiceProvider_init "svc" (sim_backend true []) None
                    default_hostname_adapter) (mkSimEnv 0 0 : @Env sim_runtime)
        = (Raise NoHostsAvailableException, p1, mkSimEnv 0 0)
        ∧ _loaded p1 = true ∧ _watcher p1 = Some 1%nat ∧ _hosts p1 = [].
Proof.
  apply (first_access_no_children "svc" (sim_backend true []) None
           default_hostname_adapter (mkSimEnv 0 0 : @Env sim_runtime)
           (mkSimEnv 0 0) (mkSimEnv 0 0) 1%nat).
  - intros l e. simpl. reflexivity.
  - reflexivity.
  - reflexivity.
  - reflexivity.
Defined.

Lemma get_host_settled `{Runtime} (p : BackendServiceProvider) (en : Env) :
  supports_watching (backend p) = true →
  _loaded p = true → is_Some (_watcher p) →
  get_host p en
  = (fst (next (_hosts_iter p)), set_hosts_iter p (snd (next (_hosts_iter p))), en).
Proof.
  intros Hw Hl Hs. unfold get_host, next_host, _hosts_iterator.
  rewrite Hw, Hl. simpl. rewrite Hw.
  rewrite bool_decide_eq_true_2 by assumption. simpl.
  destruct (next (_hosts_iter p)); reflexivity.
Qed.

Lemma hosts_iterator_settles `{Runtime} (p p1 : BackendServiceProvider)
    (en e1 : Env) :
  supports_watching (backend p) = true →
  _hosts_iterator p en = (Ret tt, p1, e1) →
  _loaded p1 = true ∧ is_Some (_watcher p1) ∧ backend p1 = backend p.
Proof.
  intros Hw. unfold _hosts_iterator.
  assert (Hload : ∀ q e q1 e1',
             (if negb (_loaded q) then _load q e else (Ret tt, q, e)) = (Ret tt, q1, e1') →
             _loaded q1 = true ∧ backend q1 = backend q
             ∧ (_watcher q1 = _watcher q)).
  { intros q e q1 e1'. destruct (_loaded q) eqn:Hl; simpl.
    - intros [= <- <-]. auto.
    - unfold _load, refresh. destruct (_get_hosts q e) as [[hosts|ex] e0]; [|discriminate].
      unfold _reset_hosts. destruct (random_shuffle hosts e0) as [sh e0'].
      intros [= <- <-]. auto. }
  destruct (if negb (_loaded p) then _load p en else (Ret tt, p, en))
    as [[[[]|ex] q] e0] eqn:Hq; [|discriminate].
  destruct (Hload _ _ _ _ Hq) as (Hl1 & Hb1 & Hw1).
  rewrite Hb1, Hw. simpl.
  destruct (_watcher q) as [w|] eqn:Hwq.
  - rewrite bool_decide_eq_true_2 by eauto. simpl.
    intros [= <- <-]. rewrite Hwq. eauto.
  - rewrite bool_decide_eq_false_2 by (intros [? ?]; discriminate). simpl.
    unfold _watch. destruct (watch_all (backend q) (_node q) e0) as [[w|ex] e0']; [|discriminate].
    intros [= <- <-]. simpl. eauto.
Qed.

(** X5. Over a watching backend, an access that yields a host leaves the
    provider loaded and watched, with the same backend; every later access
    only advances the iterator: it calls nothing of the registry and leaves
    the environment as it is. *)
Theorem successful_access_settles `{Runtime} (p p1 : BackendServiceProvider)
    (en e1 : Env) (c : Config) :
  supports_watching (backend p) = true →
  get_host p en = (Ret c, p1, e1) →
  _loaded p1 = true ∧ is_Some (_watcher p1) ∧ backend p1 = backend p
  ∧ ∀ en2, get_host p1 en2
           = (fst (next (_hosts_iter p1)),
              set_hosts_iter p1 (snd (next (_hosts_iter p1))), en2).
Proof.
  intros Hw Hg. unfold get_host in Hg. rewrite Hw in Hg. simpl in Hg.
  unfold next_host in Hg.
  destruct (_hosts_iterator p en) as [[[[]|ex] q] e0] eqn:Hq; [|discriminate].
  destruct (hosts_iterator_settles p q en e0 Hw Hq) as (Hl & Hs & Hb).
  destruct (next (_hosts_iter q)) as [r u]. injection Hg as -> <- <-.
  simpl. repeat split; try assumption.
  intros en2. apply get_host_settled; simpl; try assumption. congruence.
Qed.

Lemma successful_access_settles_witness :
  let p := sim_provider true ["n1"; "n2"] in
  let en : @Env sim_runtime := mkSimEnv 0 0 in
  let p1 := snd (fst (get_host p en)) in
  _loaded p1 = true ∧ is_Some (_watcher p1) ∧ backend p1 = backend p
  ∧ ∀ en2, get_host p1 en2
           = (fst (next (_hosts_iter p1)),
              set_hosts_iter p1 (snd (next (_hosts_iter p1))), en2).
Proof.
  intros p en p1.
  apply (successful_access_settles p p1 en (mkSimEnv 0 0)
           (<["address" := VStr "svc/n1"]> (<["port" := VInt 8080]> ∅))).
  - reflexivity.
  - vm_compute. reflexivity.
Defined.

Lemma get_nodes_ok `{Runtime} (b : Backend) (node : string)
    (children : list string) :
  ∀ (en e1 : Env) (hosts : list Config),
    get_nodes b node children en = (Ret hosts, e1) →
    Forall2 (λ child c, ∃ e e', get_node b (node +:+ "/" +:+ child) e = (Ret c, e'))
            children hosts.
Proof.
  induction children as [|child rest IH]; intros en e1 hosts; simpl.
  - intros [= <- _]. constructor.
  - destruct (get_node b (node +:+ "/" +:+ child) en) as [[c|ex] e0] eqn:Hc;
      [|discriminate].
    destruct (get_nodes b node rest e0) as [[cs|ex] e0'] eqn:Hr; [|discriminate].
    intros [= <- _]. constructor; [eauto | eapply IH, Hr].
Qed.

(** X6. When [_get_hosts()] succeeds, the registry listed the children of
    the node of the provider and the result holds one configuration per
    child, in the order of the children, each read from the path of the
    node, a slash and the name of the child.  An error of [get_children] is
    the error of [_get_hosts()]. *)
Theorem get_hosts_one_per_child `{Runtime} (p : BackendServiceProvider)
    (en : Env) :
  (∀ hosts e1,
     _get_hosts p en = (Ret hosts, e1) →
     ∃ children e0,
       get_children (backend p) (_node p) en = (Ret children, e0)
       ∧ length hosts = length children
       ∧ Forall2 (λ child c,
                    ∃ e e', get_node (backend p) (_node p +:+ "/" +:+ child) e
                            = (Ret c, e'))
                 children hosts)
  ∧ (∀ ex e0,
       get_children (backend p) (_node p) en = (Raise ex, e0) →
       _get_hosts p en = (Raise ex, e0)).
Proof.
  unfold _get_hosts. split.
  - intros hosts e1.
    destruct (get_children (backend p) (_node p) en) as [[children|ex] e0];
      [|discriminate].
    intros Hn. exists children, e0. split; [reflexivity|].
    pose proof (get_nodes_ok _ _ _ _ _ _ Hn) as HF.
    split; [symmetry; eapply Forall2_length, HF | exact HF].
  - intros ex e0 ->. reflexivity.
Qed.

Lemma get_hosts_one_per_child_witness :
  ∃ children e0,
    get_children (backend (sim_provider true ["n1"; "n2"]))
                 (_node (sim_provider true ["n1"; "n2"]))
                 (mkSimEnv 0 0 : @Env sim_runtime) = (Ret children, e0)
    ∧ length (default [] (match fst (_get_hosts (sim_provider true ["n1"; "n2"])
                                       (mkSimEnv 0 0 : @Env sim_runtime)) with
                          | Ret hs => Some hs | Raise _ => None end))
      = length children.
Proof.
  destruct (proj1 (get_hosts_one_per_child (sim_provider true ["n1"; "n2"])
              (mkSimEnv 0 0 : @Env sim_runtime))
              [<["address" := VStr "svc/n1"]> (<["port" := VInt 8080]> ∅);
               <["address" := VStr "svc/n2"]> (<["port" := VInt 8080]> ∅)]
              (mkSimEnv 0 0))
    as (children & e0 & Hc & Hl & _).
  - vm_compute. reflexivity.
  - exists children, e0. split; [exact Hc|]. rewrite <- Hl. reflexivity.
Defined.

Lemma get_host_n_settled `{Runtime} (k : nat) :
  ∀ (p : BackendServiceProvider) (en : Env),
    supports_watching (backend p) = true →
    _loaded p = true → is_Some (_watcher p) →
    fst (fst (get_host_n k p en)) = fst (next_n k (_hosts_iter p))
    ∧ snd (get_host_n k p en) = en.
Proof.
  induction k as [|k IH]; intros p en Hw Hl Hs; [auto|].
  cbn [get_host_n next_n]. rewrite get_host_settled by assumption.
  destruct (next (_hosts_iter p)) as [r u]. cbn [fst snd].
  destruct (IH (set_hosts_iter p u) en Hw Hl Hs) as (Hr & He).
  destruct (get_host_n k (set_hosts_iter p u) en) as [[rs p2] e2].
  cbn [fst snd set_hosts_iter _hosts_iter] in *.
  destruct (next_n k u) as [rs' u2]. cbn [fst snd] in *.
  subst. auto.
Qed.

(** X7. A notification replaces the generation by the shuffled
    configurations of the reported children.  On a loaded and watched
    provider, the accesses after a notification without children raise the
    stop exception of the iterator, however many there are; after a
    notification with children every access yields a host, round robin over
    the new generation, and any host yielded afterwards is the
    configuration of one of the reported children.  None of these accesses
    touches the environment. *)
Theorem children_change_replaces `{Runtime} (p : BackendServiceProvider)
    (children : gmap string Config) (en : Env) :
  (∀ l e, fst (random_shuffle l e) ≡ₚ l) →
  supports_watching (backend p) = true →
  _loaded p = true → is_Some (_watcher p) →
  let p1 := fst (_on_children_change p children en) in
  (children = ∅ →
   ∀ en2, get_host p1 en2 = (Raise (_stop_exc (_hosts_iter p)), p1, en2))
  ∧ (∀ en2 c p2 e2,
       get_host p1 en2 = (Ret c, p2, e2) → ∃ k, children !! k = Some c)
  ∧ _hosts p1 = fst (random_shuffle (map snd (map_to_list children)) en)
  ∧ (children = ∅ →
     ∀ n en2 j, (j < n)%nat →
       fst (fst (get_host_n n p1 en2)) !! j
       = Some (Raise (_stop_exc (_hosts_iter p))))
  ∧ (children ≠ ∅ →
     ∀ n en2 j, (j < n)%nat →
       fst (fst (get_host_n n p1 en2)) !! j
       = Ret <$> _hosts p1 !! (j mod length (_hosts p1))%nat)
  ∧ (∀ n en2 j c,
       fst (fst (get_host_n n p1 en2)) !! j = Some (Ret c) →
       ∃ k, children !! k = Some c)
  ∧ (∀ n en2, snd (get_host_n n p1 en2) = en2).
Proof.
  intros Hperm Hw Hl Hs p1.
  assert (Hp1 : supports_watching (backend p1) = true ∧ _loaded p1 = true
                ∧ is_Some (_watcher p1)
                ∧ saved (_iter (_hosts_iter p1)) ≡ₚ map snd (map_to_list children)
                ∧ _stop_exc (_hosts_iter p1) = _stop_exc (_hosts_iter p)
                ∧ saved (_iter (_hosts_iter p1)) = _hosts p1
                ∧ pos (_iter (_hosts_iter p1)) = 0%nat
                ∧ _hosts p1 = fst (random_shuffle (map snd (map_to_list children)) en)).
  { unfold p1, _on_children_change, _reset_hosts.
    pose proof (Hperm (map snd (map_to_list children)) en) as Hp.
    destruct (random_shuffle (map snd (map_to_list children)) en) as [sh e1].
    simpl in *. repeat split; auto. }
  destruct Hp1 as (Hw1 & Hl1 & Hs1 & Hperm1 & Hx1 & Hsv & Hpos & Hsh).
  assert (Hin : ∀ c, c ∈ saved (_iter (_hosts_iter p1)) → ∃ k, children !! k = Some c).
  { intros c Hc. rewrite Hperm1 in Hc.
    apply list_elem_of_fmap in Hc as ([k c'] & -> & Hc).
    exists k. apply elem_of_map_to_list in Hc. exact Hc. }
  split; [|split; [|split; [|split; [|split; [|split]]]]].
  - intros -> en2. rewrite map_to_list_empty in Hperm1. simpl in Hperm1.
    apply Permutation_nil_r in Hperm1.
    rewrite get_host_empty by assumption. rewrite Hx1. reflexivity.
  - intros en2 c p2 e2. rewrite get_host_settled by assumption.
    destruct (next (_hosts_iter p1)) as [r u] eqn:Hn. simpl.
    intros [= -> _ _]. apply next_ret in Hn as [Hc _]. auto.
  - exact Hsh.
  - intros -> n en2 j Hj. rewrite map_to_list_empty in Hperm1. simpl in Hperm1.
    apply Permutation_nil_r in Hperm1.
    destruct (get_host_n_settled n p1 en2 Hw1 Hl1 Hs1) as (-> & _).
    rewrite <- Hx1. clear -Hperm1 Hj. revert j Hj.
    generalize dependent (_hosts_iter p1). clear p1.
    induction n as [|n IH]; intros u Hu j Hj; [lia|].
    cbn [next_n].
    assert (Hn : next u = (Raise (_stop_exc u), u)).
    { unfold next, cycle_next. rewrite Hu, lookup_nil. destruct u; reflexivity. }
    rewrite Hn. specialize (IH u Hu). destruct (next_n n u) as [rs u2].
    cbn [fst] in *. destruct j as [|j]; [reflexivity|]. apply IH. lia.
  - intros Hne n en2 j Hj.
    destruct (get_host_n_settled n p1 en2 Hw1 Hl1 Hs1) as (-> & _).
    assert (Hlen : (0 < length (saved (_iter (_hosts_iter p1))))%nat).
    { rewrite Hperm1, length_map.
      destruct (map_to_list children) as [|kv l] eqn:Hm; [|simpl; lia].
      apply map_to_list_empty_iff in Hm. contradiction. }
    destruct (next_n_lookup n (_hosts_iter p1) j) as (x & Hx & ->); [lia|exact Hj|].
    rewrite Hpos, Hsv in Hx. cbn [Nat.add] in Hx. rewrite Hx. reflexivity.
  - intros n en2 j c.
    destruct (get_host_n_settled n p1 en2 Hw1 Hl1 Hs1) as (-> & _).
    intros Hc. apply next_n_ret in Hc. auto.
  - intros n en2. apply get_host_n_settled; assumption.
Qed.

Lemma children_change_replaces_witness :
  let p := sim_provider_empty in
  let en : @Env sim_runtime := mkSimEnv 3 0 in
  let a : Config := {[ "address" := VStr "a" ]} in
  let children : gmap string Config := {[ "n1" := a ]} in
  let p1 := fst (_on_children_change p children en) in
  fst (fst (get_host_n 3 p1 (mkSimEnv 4 0))) !! 2%nat = Some (Ret a)
  ∧ (∀ n en2 j c,
       fst (fst (get_host_n n p1 en2)) !! j = Some (Ret c) →
       ∃ k, children !! k = Some c)
  ∧ snd (get_host_n 3 p1 (mkSimEnv 4 0)) = mkSimEnv 4 0.
Proof.
  intros p en a children p1.
  destruct (children_change_replaces sim_provider_empty
              {[ "n1" := {[ "address" := VStr "a" ]} ]}
              (mkSimEnv 3 0 : @Env sim_runtime))
    as (_ & _ & _ & _ & Hrr & Hin & Henv).
  - intros l e. simpl. reflexivity.
  - reflexivity.
  - reflexivity.
  - vm_compute. eexists. reflexivity.
  - split; [|split].
    + unfold p1. rewrite Hrr; [vm_compute; reflexivity | | lia].
      intros Hc. apply (f_equal (λ m : gmap string Config, m !! "n1")) in Hc.
      vm_compute in Hc. discriminate.
    + exact Hin.
    + apply Henv.
Defined.

(** X8. [_unwatch()] on a provider that was never watched raises
    [AttributeError] and changes nothing; when [stop()] of the watcher
    raises, the error is passed on and the watcher stays in place; when
    [stop()] returns, the watcher is dropped, and the next access to the
    hosts of a loaded provider over a watching backend registers a watch
    again. *)
Theorem unwatch_behaviour `{Runtime} (stop : Watcher → Env → Result unit * Env)
    (p : BackendServiceProvider) (en : Env) :
  (_watcher p = None →
   _unwatch stop p en = (Raise (AttributeError "stop"), p, en))
  ∧ (∀ w ex e1,
       _watcher p = Some w → stop w en = (Raise ex, e1) →
       _unwatch stop p en = (Raise ex, p, e1))
  ∧ (∀ w e1,
       _watcher p = Some w → stop w en = (Ret tt, e1) →
       ∃ p1, _unwatch stop p en = (Ret tt, p1, e1)
             ∧ _watcher p1 = None
             ∧ _hosts_iter p1 = _hosts_iter p
             ∧ (supports_watching (backend p) = true → _loaded p = true →
                ∀ e2, _hosts_iterator p1 e2 = _watch p1 e2)).
Proof.
  unfold _unwatch. split; [|split].
  - intros ->. reflexivity.
  - intros w ex e1 -> ->. reflexivity.
  - intros w e1 -> ->. eexists. split; [reflexivity|].
    split; [reflexivity|]. split; [reflexivity|].
    intros Hw Hl e2. unfold _hosts_iterator, set_watcher. cbn [_loaded].
    rewrite Hl. cbn [negb backend _watcher]. rewrite Hw.
    rewrite bool_decide_eq_false_2 by (intros [? ?]; discriminate).
    reflexivity.
Qed.

Lemma unwatch_behaviour_witness :
  ∃ p1, _unwatch (λ _ e, (Ret tt, e)) sim_provider_empty
                 (mkSimEnv 0 0 : @Env sim_runtime)
        = (Ret tt, p1, mkSimEnv 0 0)
        ∧ _watcher p1 = None
        ∧ _hosts_iter p1 = _hosts_iter sim_provider_empty
        ∧ (supports_watching (backend sim_provider_empty) = true →
           _loaded sim_provider_empty = true →
           ∀ e2, _hosts_iterator p1 e2 = _watch p1 e2).
Proof.
  apply (proj2 (proj2 (unwatch_behaviour (λ _ e, (Ret tt, e)) sim_provider_empty
                         (mkSimEnv 0 0 : @Env sim_runtime))) 1%nat (mkSimEnv 0 0)).
  - reflexivity.
  - reflexivity.
Defined.

(** ** The shape of a run of [retry] ([client.py]) *)

Section RunShape.
Context `{Runtime}.

Lemma handle_warnings (e : Exc) (host : string) (c : SmartClient) (en : Env) :
  Forall (λ ev, is_warning ev = true) (snd (handle e host c en)).
Proof.
  unfold handle. destruct (bool_decide (e = CircuitOpenError)).
  - destruct (all_closed (time_time en) (breakers c)) as [[v|e1] bs1]; simpl; [|constructor].
    destruct (truthy v); simpl; repeat constructor.
  - destruct (bool_decide (e ∈ error_types (breakers c))); simpl; repeat constructor.
Qed.

Lemma merged_bound (send_host : bool) (host : string) (stored : gmap string Value) :
  (if send_host then {[ "host" := VStr host ]} else ∅) ∪ stored
  = bound_kwargs send_host host stored.
Proof.
  unfold bound_kwargs. destruct send_host.
  - symmetry. apply insert_union_singleton_l.
  - apply (left_id_L ∅ (∪)).
Qed.

(** One pass of the loop either fails to select a host, or is rejected by
    the breaker, or calls the function once; apart from that it only
    logs. *)
Lemma attempt_shape (r : Retriable) (send_host : bool) (st : State) :
  let '(s, st1, evs) := attempt r send_host st in
  (∃ e, s = Done (Raise e) ∧ evs = [NoHost e] ∧ heap st1 = heap st)
  ∨ (∃ host tail,
       evs = LogAttempt host :: Rejected host :: tail
       ∧ Forall (λ ev, is_warning ev = true) tail ∧ heap st1 = heap st)
  ∨ (∃ host tail,
       let kw := bound_kwargs send_host host (heap_read (heap st) (kwargs r)) in
       evs = LogAttempt host :: Invoked (args r) kw :: tail
       ∧ Forall (λ ev, is_warning ev = true) tail
       ∧ heap st1 = heap st ++ [kw]).
Proof.
  unfold attempt.
  destruct (get_hostname (client st) (env st)) as [[[host|e] c1] e1].
  2:{ left. eauto. }
  destruct (context (breakers c1) host) as [b bs1].
  destruct (breaker_test (time_time e1) (reset_timeout bs1) b) as [[u|e] b1].
  - rewrite Retriable_call_eq. cbv zeta. rewrite merged_bound.
    set (kw := bound_kwargs send_host host (heap_read (heap st) (kwargs r))).
    destruct (fst (func r (args r) kw e1)) as [v|e].
    + right. right. exists host, []. simpl. auto.
    + match goal with |- context [handle e host ?c ?en] =>
        pose proof (handle_warnings e host c en) as Hw;
        destruct (handle e host c en) as [[s c2] evs] end.
      right. right. exists host, evs. simpl in *. auto.
  - match goal with |- context [handle e host ?c ?en] =>
      pose proof (handle_warnings e host c en) as Hw;
      destruct (handle e host c en) as [[s c2] evs] end.
    right. left. exists host, evs. simpl in *. auto.
Qed.

Lemma sleeps_cons (ev : Event) (evs : list Event) :
  sleeps (ev :: evs)
  = match ev with Slept d => d :: sleeps evs | _ => sleeps evs end.
Proof. destruct ev; reflexivity. Qed.

Lemma warnings_counts (evs : list Event) :
  Forall (λ ev, is_warning ev = true) evs →
  invocations evs = 0%nat ∧ sleeps evs = []
  ∧ ∀ a kw, Invoked a kw ∉ evs.
Proof.
  induction 1 as [|ev evs Hev _ (IH1 & IH2 & IH3)]; [split; [|split]; auto; intros a kw Hin; inversion Hin|].
  destruct ev; try discriminate; (split; [|split]; [exact IH1 | exact IH2 |]);
    intros a kw Hin; apply elem_of_cons in Hin as [Heq|Hin];
    try discriminate; eapply IH3, Hin.
Qed.

End RunShape.

(** X9. With [max_tries] zero or negative the loop body is never entered:
    [retry] raises [MaxRetriesReached] without selecting a host, calling the
    function or sleeping, and leaves the state as it is. *)
Theorem retry_without_tries `{Runtime} (r : Retriable) (max_tries : Z)
    (backoff : Backoff) (send_host : bool) (st : State) :
  max_tries ≤ 0 →
  retry_run r max_tries backoff send_host st = (Raise MaxRetriesReached, st, []).
Proof.
  intros Hle. unfold retry_run.
  replace (Z.to_nat max_tries) with 0%nat by lia. reflexivity.
Qed.

Lemma retry_without_tries_witness :
  retry_run answering 0 (BackoffFixed 5) true state_fresh
  = (Raise MaxRetriesReached, state_fresh, []).
Proof. apply (retry_without_tries answering 0 (BackoffFixed 5) true state_fresh). lia. Defined.

Lemma do_backoff_slept `{Runtime} (backoff : Backoff) (i max_tries : Z)
    (en e1 : Env) (r : Result unit) (evb : list Event) (d : Z) :
  do_backoff backoff i max_tries en = (r, e1, evb) →
  Slept d ∈ evb →
  ∀ d0, backoff = BackoffFixed d0 → d = d0.
Proof.
  unfold do_backoff, sleep. intros Hb Hin d0 ->.
  destruct (backoff_truthy (BackoffFixed d0) && (i <? max_tries)).
  - destruct (d0 <? 0); injection Hb as <- <- <-.
    + apply list_elem_of_singleton in Hin. discriminate.
    + apply list_elem_of_singleton in Hin. congruence.
  - injection Hb as <- <- <-. inversion Hin.
Qed.

Lemma no_sleep_prefix (xs ys : list Event) :
  sleeps xs = [] →
  sleeps_precede_attempts (xs ++ ys) = sleeps_precede_attempts ys.
Proof.
  induction xs as [|x xs IH]; [reflexivity|].
  rewrite sleeps_cons. destruct x; try discriminate; intros Hs; cbn; auto.
Qed.

Lemma retry_loop_bounds `{Runtime} (r : Retriable) (max_tries : Z)
    (backoff : Backoff) (send_host : bool) (n : nat) :
  ∀ (i : Z) (st : State),
    i + Z.of_nat n = max_tries + 1 →
    let evs := snd (retry_loop n i r max_tries backoff send_host st) in
    (invocations evs ≤ n)%nat
    ∧ (length (sleeps evs) ≤ pred n)%nat
    ∧ (backoff_truthy backoff = false → sleeps evs = [])
    ∧ (∀ d, backoff = BackoffFixed d → Forall (eq d) (sleeps evs))
    ∧ sleeps_precede_attempts evs = true
    ∧ ((0 < n)%nat → ∃ ev rest, evs = ev :: rest ∧ starts_attempt ev = true).
Proof.
  induction n as [|n IH]; intros i st Hi; cbn [retry_loop].
  - cbn. repeat split; auto; lia.
  - destruct (attempt_cases r send_host st) as (s & st1 & ev1 & -> & Hc).
    assert (Hev1 : (invocations ev1 ≤ 1)%nat ∧ sleeps ev1 = []
                   ∧ ∃ ev rest, ev1 = ev :: rest ∧ starts_attempt ev = true).
    { destruct Hc as [(e & _ & ->) | [(host & _ & ->) | [(host & kw & res0 & _ & ->)
                    | (host & kw & w & _ & Hw & ->)]]];
        (split; [rewrite ?invocations_cons; cbn; try lia
                |split; [|eauto]]); try reflexivity.
      - destruct w; try discriminate; cbn; lia.
      - destruct w; try discriminate; reflexivity. }
    destruct Hev1 as (Hinv1 & Hsl1 & ev & rest & Hhd & Hst).
    assert (Hpre1 : sleeps_precede_attempts ev1 = true).
    { rewrite <- (app_nil_r ev1), no_sleep_prefix by assumption. reflexivity. }
    destruct s as [res|].
    + cbn [snd]. rewrite Hsl1. repeat split; auto; cbn; try lia.
      intros _. exists ev, rest. auto.
    + destruct (do_backoff_cases backoff i max_tries (env st1))
        as (rb & e2 & evb & Hdo & Hb).
      rewrite Hdo.
      destruct Hb as [(-> & ->) | [(d & -> & -> & Hd & Hlt & Htr) | (e & -> & ->)]].
      * specialize (IH (i + 1) (mkState (client st1) (heap st1) e2) ltac:(lia)).
        destruct (retry_loop n (i + 1) r max_tries backoff send_host
                    (mkState (client st1) (heap st1) e2)) as [[res st3] evr].
        cbn [snd app] in *. destruct IH as (IH1 & IH2 & IH3 & IH4 & IH5 & IH6).
        rewrite invocations_app, sleeps_app, Hsl1, no_sleep_prefix by assumption.
        cbn [app]. repeat split; auto; try lia.
        intros _. rewrite Hhd. cbn [app]. eauto.
      * specialize (IH (i + 1) (mkState (client st1) (heap st1) e2) ltac:(lia)).
        destruct (retry_loop n (i + 1) r max_tries backoff send_host
                    (mkState (client st1) (heap st1) e2)) as [[res st3] evr].
        cbn [snd] in *. destruct IH as (IH1 & IH2 & IH3 & IH4 & IH5 & IH6).
        destruct (IH6 ltac:(lia)) as (ev2 & rest2 & Hevr & Hst2).
        assert (Hp : sleeps_precede_attempts ([Slept d] ++ evr) = true).
        { rewrite Hevr in *.
          change (sleeps_precede_attempts ([Slept d] ++ ev2 :: rest2))
            with (starts_attempt ev2 && sleeps_precede_attempts (ev2 :: rest2)).
          rewrite Hst2, IH5. reflexivity. }
        assert (Hsl : sleeps ([Slept d] ++ evr) = d :: sleeps evr) by reflexivity.
        assert (Hinv : invocations ([Slept d] ++ evr) = invocations evr).
        { cbn [app]. rewrite invocations_cons. reflexivity. }
        rewrite invocations_app, sleeps_app, Hsl1, no_sleep_prefix, Hp, Hsl, Hinv
          by assumption.
        cbn [app length].
        split; [lia|]. split; [lia|]. split.
        { intros Hf. congruence. }
        split.
        { intros d0 Hd0. constructor; [|auto].
          symmetry. eapply (do_backoff_slept _ _ _ _ _ _ _ d Hdo); [left | exact Hd0]. }
        split; [reflexivity|].
        intros _. rewrite Hhd. cbn [app]. eauto.
      * cbn [snd]. rewrite invocations_app, sleeps_app, Hsl1, no_sleep_prefix by assumption.
        assert (Hinv : invocations [BackoffFailed e] = 0%nat) by reflexivity.
        rewrite Hinv. cbn [app sleeps omap list_omap length sleeps_precede_attempts].
        split; [lia|]. split; [cbn; lia|]. split; [reflexivity|].
        split; [intros; constructor|]. split; [reflexivity|].
        intros _. rewrite Hhd. cbn [app]. eauto.
Qed.

(** X10. A run of [retry] calls the function at most [max_tries] times and
    sleeps at most [max_tries - 1] times; every sleep is followed at once
    by another attempt, so the loop never sleeps after its last attempt; it
    does not sleep at all when the backoff is [None] or zero, and with a
    fixed backoff every sleep lasts that long. *)
Theorem retry_bounds `{Runtime} (r : Retriable) (max_tries : Z)
    (backoff : Backoff) (send_host : bool) (st : State) :
  let evs := snd (retry_run r max_tries backoff send_host st) in
  (invocations evs ≤ Z.to_nat max_tries)%nat
  ∧ (length (sleeps evs) ≤ Z.to_nat max_tries - 1)%nat
  ∧ sleeps_precede_attempts evs = true
  ∧ (backoff_truthy backoff = false → sleeps evs = [])
  ∧ (∀ d, backoff = BackoffFixed d → Forall (eq d) (sleeps evs)).
Proof.
  unfold retry_run. destruct (Z.le_gt_cases max_tries 0) as [Hle|Hgt].
  - replace (Z.to_nat max_tries) with 0%nat by lia. cbn.
    repeat split; auto.
  - pose proof (retry_loop_bounds r max_tries backoff send_host
                  (Z.to_nat max_tries) 1 st ltac:(lia)) as Hb.
    cbv zeta in *. destruct Hb as (H1 & H2 & H3 & H4 & H5 & _).
    repeat split; auto; lia.
Qed.

Lemma retry_bounds_witness :
  sleeps (snd (retry_run failing 3 (BackoffFixed 0) false state_fresh)) = []
  ∧ Forall (eq 5) (sleeps (snd (retry_run failing 3 (BackoffFixed 5) false state_fresh)))
  ∧ sleeps_precede_attempts
      (snd (retry_run failing 3 (BackoffFixed 5) false state_fresh)) = true.
Proof.
  split; [|split].
  - apply (proj1 (proj2 (proj2 (proj2 (retry_bounds failing 3 (BackoffFixed 0) false
                                         state_fresh))))).
    reflexivity.
  - apply (proj2 (proj2 (proj2 (proj2 (retry_bounds failing 3 (BackoffFixed 5) false
                                         state_fresh)))) 5).
    reflexivity.
  - apply (proj1 (proj2 (proj2 (retry_bounds failing 3 (BackoffFixed 5) false
                                  state_fresh)))).
Defined.

Lemma retry_loop_calls `{Runtime} (r : Retriable) (max_tries : Z)
    (backoff : Backoff) (send_host : bool) (stored : gmap string Value)
    (n : nat) :
  ∀ (i : Z) (st : State),
    (kwargs r < length (heap st))%nat →
    heap_read (heap st) (kwargs r) = stored →
    ∀ a kw,
      Invoked a kw ∈ snd (retry_loop n i r max_tries backoff send_host st) →
      a = args r
      ∧ ∃ host,
          LogAttempt host ∈ snd (retry_loop n i r max_tries backoff send_host st)
          ∧ kw = bound_kwargs send_host host stored.
Proof.
  induction n as [|n IH]; intros i st Hlt Hst a kw; simpl.
  - intros Hin. inversion Hin.
  - pose proof (attempt_shape r send_host st) as Hs.
    destruct (attempt r send_host st) as [[s st1] ev1].
    assert (Hev1 : (∀ a kw, Invoked a kw ∈ ev1 →
                      a = args r
                      ∧ ∃ host, LogAttempt host ∈ ev1
                                ∧ kw = bound_kwargs send_host host stored)
                   ∧ (kwargs r < length (heap st1))%nat
                   ∧ heap_read (heap st1) (kwargs r) = stored).
    { destruct Hs as [(e & _ & -> & ->) | [(host & tail & -> & Hw & ->)
                                          | (host & tail & -> & Hw & ->)]].
      - split; [|auto]. intros a0 kw0 Hin.
        apply list_elem_of_singleton in Hin. discriminate.
      - destruct (warnings_counts tail Hw) as (_ & _ & Hno).
        split; [|auto]. intros a0 kw0 Hin.
        apply elem_of_cons in Hin as [Heq|Hin]; [discriminate|].
        apply elem_of_cons in Hin as [Heq|Hin]; [discriminate|].
        exfalso. eapply Hno, Hin.
      - destruct (warnings_counts tail Hw) as (_ & _ & Hno).
        split; [|split].
        + intros a0 kw0 Hin.
          apply elem_of_cons in Hin as [Heq|Hin]; [discriminate|].
          apply elem_of_cons in Hin as [Heq|Hin]; [|exfalso; eapply Hno, Hin].
          injection Heq as -> ->. rewrite Hst. split; [reflexivity|].
          exists host. split; [left | reflexivity].
        + rewrite length_app. simpl. lia.
        + unfold heap_read. rewrite lookup_app_l by assumption. exact Hst. }
    destruct Hev1 as (Hcalls & Hlt1 & Hst1).
    destruct s as [res|].
    + simpl. apply Hcalls.
    + destruct (do_backoff_cases backoff i max_tries (env st1))
        as (rb & e2 & evb & Hdo & Hb).
      rewrite Hdo.
      assert (Hnb : ∀ a kw, Invoked a kw ∉ evb).
      { intros a0 kw0 Hin.
        destruct Hb as [(_ & ->) | [(d & _ & -> & _) | (e & _ & ->)]].
        - inversion Hin.
        - apply list_elem_of_singleton in Hin. discriminate.
        - apply list_elem_of_singleton in Hin. discriminate. }
      destruct rb as [[]|e].
      2:{ cbn [snd]. intros Hin.
          apply elem_of_app in Hin as [Hin|Hin]; [|exfalso; eapply Hnb, Hin].
          destruct (Hcalls a kw Hin) as (-> & host & Hh & ->).
          split; [reflexivity|]. exists host. split; [|reflexivity].
          apply elem_of_app. left. exact Hh. }
      specialize (IH (i + 1) (mkState (client st1) (heap st1) e2) Hlt1 Hst1 a kw).
      destruct (retry_loop n (i + 1) r max_tries backoff send_host
                  (mkState (client st1) (heap st1) e2)) as [[res st3] evr].
      cbn [snd] in *. intros Hin.
      apply elem_of_app in Hin as [Hin|Hin].
      { destruct (Hcalls a kw Hin) as (-> & host & Hh & ->).
        split; [reflexivity|]. exists host. split; [|reflexivity].
        apply elem_of_app. left. exact Hh. }
      apply elem_of_app in Hin as [Hin|Hin]; [exfalso; eapply Hnb, Hin|].
      destruct (IH Hin) as (-> & host & Hh & ->).
      split; [reflexivity|]. exists host. split; [|reflexivity].
      apply elem_of_app. right. apply elem_of_app. right. exact Hh.
Qed.

(** X11. Every call that [retry] makes passes the positional arguments
    stored in the [Retriable] and its stored keyword arguments; with
    [send_host] the keyword [host] is bound to a host the run selected,
    also when a [host] was stored, and without [send_host] the stored
    keyword arguments are passed as they are. *)
Theorem retry_call_arguments `{Runtime} (r : Retriable) (max_tries : Z)
    (backoff : Backoff) (send_host : bool) (st : State) :
  (kwargs r < length (heap st))%nat →
  ∀ a kw,
    Invoked a kw ∈ snd (retry_run r max_tries backoff send_host st) →
    a = args r
    ∧ ∃ host,
        LogAttempt host ∈ snd (retry_run r max_tries backoff send_host st)
        ∧ kw = bound_kwargs send_host host (heap_read (heap st) (kwargs r)).
Proof.
  intros Hlt. unfold retry_run.
  exact (retry_loop_calls r max_tries backoff send_host
           (heap_read (heap st) (kwargs r)) (Z.to_nat max_tries) 1 st Hlt eq_refl).
Qed.

Lemma retry_call_arguments_witness :
  [] = args failing
  ∧ ∃ host,
      LogAttempt host ∈ snd (retry_run failing 3 BackoffNone true state_fresh)
      ∧ ({[ "host" := VStr "A" ]} : gmap string Value)
        = bound_kwargs true host (heap_read (heap state_fresh) (kwargs failing)).
Proof.
  apply (retry_call_arguments failing 3 BackoffNone true state_fresh).
  - simpl. lia.
  - vm_compute. right. left.
Defined.

(** X12. When the breaker of the selected host lets the attempt through and
    the function returns a value, [retry] returns that value from this
    attempt: the trace holds the attempt and the call, and neither a
    warning nor a sleep nor a later attempt. *)
Theorem success_returns `{Runtime} (n : nat) (i max_tries : Z)
    (r : Retriable) (backoff : Backoff) (send_host : bool) (st : State)
    (host : string) (c1 : SmartClient) (e1 e2 : Env)
    (b b1 : CircuitBreaker) (bs1 : CircuitBreakerSet) (v : Value) :
  get_hostname (client st) (env st) = (Ret host, c1, e1) →
  context (breakers c1) host = (b, bs1) →
  breaker_test (time_time e1) (reset_timeout bs1) b = (Ret tt, b1) →
  func r (args r)
       (bound_kwargs send_host host (heap_read (heap st) (kwargs r))) e1
  = (Ret v, e2) →
  ∃ st1,
    retry_loop (S n) i r max_tries backoff send_host st
    = (Ret v, st1,
       [LogAttempt host;
        Invoked (args r)
          (bound_kwargs send_host host (heap_read (heap st) (kwargs r)))])
    ∧ env st1 = e2
    ∧ heap st1
      = heap st ++ [bound_kwargs send_host host (heap_read (heap st) (kwargs r))].
Proof.
  intros Hg Hc Ht Hf. simpl. unfold attempt. rewrite Hg, Hc, Ht.
  rewrite Retriable_call_eq. cbv zeta. rewrite merged_bound, Hf. simpl.
  eexists. split; [reflexivity|]. auto.
Qed.

Lemma success_returns_witness :
  ∃ st1,
    retry_loop 3 1 answering 3 (BackoffFixed 5) true state_fresh
    = (Ret (VInt 42), st1,
       [LogAttempt "A";
        Invoked (args answering)
          (bound_kwargs true "A" (heap_read (heap state_fresh) (kwargs answering)))])
    ∧ env st1 = sim_tick (env state_fresh)
    ∧ heap st1
      = heap state_fresh
        ++ [bound_kwargs true "A" (heap_read (heap state_fresh) (kwargs answering))].
Proof.
  apply (success_returns 2 1 3 answering (BackoffFixed 5) true state_fresh
           "A" (client state_fresh) (env state_fresh) (sim_tick (env state_fresh))
           new_breaker new_breaker
           (set_circuits (breakers (client state_fresh)) [("A", new_breaker)])
           (VInt 42)).
  - vm_compute. reflexivity.
  - vm_compute. reflexivity.
  - vm_compute. reflexivity.
  - reflexivity.
Defined.

(** X13. A client built without a provider and without hosts, or with an
    empty list of hosts, has no iterator: [retry] with at least one try
    raises [TypeError] on the first attempt, before any call. *)
Theorem retry_without_hosts `{Runtime} (nm : string) (errors : option (list Exc))
    (hosts : option (list string)) (mf : nat) (rt : Z) (r : Retriable)
    (max_tries : Z) (backoff : Backoff) (send_host : bool) (h : Heap) (en : Env) :
  hosts = None ∨ hosts = Some [] →
  1 ≤ max_tries →
  retry_run r max_tries backoff send_host
            (mkState (SmartClient_init nm errors None hosts mf rt) h en)
  = (Raise TypeError, mkState (SmartClient_init nm errors None hosts mf rt) h en,
     [NoHost TypeError]).
Proof.
  intros Hh Hn. unfold retry_run.
  destruct (Z.to_nat max_tries) as [|n] eqn:Hk; [lia|].
  apply retry_loop_no_host. simpl. destruct Hh as [-> | ->]; reflexivity.
Qed.

Lemma retry_without_hosts_witness :
  retry_run answering 3 BackoffNone false
            (mkState (SmartClient_init "svc" None None (Some []) 3 10) [∅]
                     (mkSimEnv 0 0))
  = (Raise TypeError,
     mkState (SmartClient_init "svc" None None (Some []) 3 10) [∅] (mkSimEnv 0 0),
     [NoHost TypeError]).
Proof.
  apply (retry_without_hosts "svc" None (Some []) 3 10 answering 3 BackoffNone
           false [∅] (mkSimEnv 0 0 : @Env sim_runtime)).
  - right. reflexivity.
  - lia.
Defined.

(** X14. When the hostname adapter of the provider fails on the
    configuration that is next in turn, as the default adapter does on a
    configuration without ports, [retry] ends on that attempt with the
    error of the adapter: the function is not called, and the heap and the
    breakers are left as they were. *)
Theorem adapter_error_propagates `{Runtime} (n : nat) (i max_tries : Z)
    (r : Retriable) (backoff : Backoff) (send_host : bool) (st : State)
    (p : BackendServiceProvider) (config : Config) (e : Exc) :
  _hosts_provider (client st) = Some p →
  supports_watching (backend p) = true →
  _loaded p = true → is_Some (_watcher p) →
  saved (_iter (_hosts_iter p)) !! pos (_iter (_hosts_iter p)) = Some config →
  _hostname_adapter p config = Raise e →
  ∃ st1,
    retry_loop (S n) i r max_tries backoff send_host st
    = (Raise e, st1, [NoHost e])
    ∧ heap st1 = heap st
    ∧ env st1 = env st
    ∧ breakers (client st1) = breakers (client st).
Proof.
  intros Hp Hw Hl Hs Hc Ha.
  assert (Hg : ∃ c1, get_hostname (client st) (env st) = (Raise e, c1, env st)
                     ∧ breakers c1 = breakers (client st)).
  { unfold get_hostname, provider_get_hostname. rewrite Hp.
    rewrite get_host_settled by assumption.
    unfold next, cycle_next. rewrite Hc. simpl. rewrite Ha.
    eexists. split; reflexivity. }
  destruct Hg as (c1 & Hg & Hb).
  rewrite (retry_loop_no_host n i max_tries r backoff send_host st e c1 (env st) Hg).
  eexists. split; [reflexivity|]. auto.
Qed.

Lemma adapter_error_propagates_witness :
  ∃ st1,
    retry_loop 3 1 answering 3 BackoffNone true
               (mkState (sim_provider_client sim_provider_no_port) [∅] (mkSimEnv 0 0))
    = (Raise (KeyError "port"), st1, [NoHost (KeyError "port")])
    ∧ heap st1 = [∅]
    ∧ env st1 = mkSimEnv 0 0
    ∧ breakers (client st1) = breakers (sim_provider_client sim_provider_no_port).
Proof.
  apply (adapter_error_propagates 2 1 3 answering BackoffNone true
           (mkState (sim_provider_client sim_provider_no_port) [∅] (mkSimEnv 0 0))
           sim_provider_no_port (<["address" := VStr "svc/n1"]> ∅)).
  - reflexivity.
  - reflexivity.
  - reflexivity.
  - vm_compute. eexists. reflexivity.
  - vm_compute. reflexivity.
  - vm_compute. reflexivity.
Defined.

(** X15. Calling a [Retriable] right after it was built from a function,
    positional arguments and keyword arguments calls the function with
    those positional arguments and with the keyword arguments overridden by
    the ones of the call; without overrides the function receives exactly
    what was captured. *)
Theorem Retriable_init_call `{Runtime} (f : Func) (a : list Value)
    (kw ov : gmap string Value) (h : Heap) (en : Env) :
  let r := fst (Retriable_init f a kw h) in
  let h1 := snd (Retriable_init f a kw h) in
  Retriable_call r ov h1 en
  = (fst (f a (ov ∪ kw) en), h1 ++ [ov ∪ kw], snd (f a (ov ∪ kw) en),
     [Invoked a (ov ∪ kw)])
  ∧ fst (fst (fst (Retriable_call r ∅ h1 en))) = fst (f a kw en).
Proof.
  assert (Hrd : heap_read (h ++ [kw]) (length h) = kw).
  { unfold heap_read. rewrite list_lookup_middle by reflexivity. reflexivity. }
  split.
  - rewrite Retriable_call_eq. simpl. rewrite Hrd. reflexivity.
  - rewrite Retriable_call_eq. simpl. rewrite Hrd.
    rewrite (left_id_L ∅ (∪)). reflexivity.
Qed.

(** ** Paths and URLs *)

Lemma rstrip_slash_app (s : string) :
  rstrip_slash (s +:+ "/") = rstrip_slash s.
Proof.
  induction s as [|c rest IH]; [reflexivity|].
  change (String c rest +:+ "/") with (String c (rest +:+ "/")).
  cbn [rstrip_slash]. rewrite IH. reflexivity.
Qed.

Lemma rstrip_slash_no_slash (s : string) :
  ∀ t, rstrip_slash s ≠ t +:+ "/".
Proof.
  induction s as [|c rest IH]; intros t.
  - destruct t; discriminate.
  - cbn [rstrip_slash]. destruct (rstrip_slash rest) as [|c1 r1] eqn:Hr.
    + destruct (Ascii.eqb_spec c slash) as [->|Hne].
      * destruct t; discriminate.
      * destruct t as [|c2 t]; [intros [= ->]; apply Hne; reflexivity|].
        destruct t; discriminate.
    + destruct t as [|c2 t]; [discriminate|].
      change (String c2 t +:+ "/") with (String c2 (t +:+ "/")).
      intros [= _ Heq]. eapply IH, Heq.
Qed.

Lemma rstrip_slash_fixed (s : string) :
  (∀ t, s ≠ t +:+ "/") → rstrip_slash s = s.
Proof.
  induction s as [|c rest IH]; intros Hs; [reflexivity|].
  cbn [rstrip_slash]. destruct rest as [|c1 r1].
  - simpl. destruct (Ascii.eqb_spec c slash) as [->|Hne]; [|reflexivity].
    exfalso. apply (Hs ""). reflexivity.
  - rewrite IH; [reflexivity|].
    intros t Ht. apply (Hs (String c t)). simpl. rewrite Ht. reflexivity.
Qed.

(** X16. [node_join] drops the trailing slashes of every name: a name with
    one more slash at its end gives the same path, and no joined name keeps
    a slash at its end.  For a node and a child that do not end with a
    slash the path is the one [_get_hosts] of the provider builds, the
    node, a slash and the child. *)
Theorem node_join_paths :
  (∀ names, node_join (map (λ s, s +:+ "/") names) = node_join names)
  ∧ (∀ name t, rstrip_slash name ≠ t +:+ "/")
  ∧ (∀ node child,
       (∀ t, node ≠ t +:+ "/") → (∀ t, child ≠ t +:+ "/") →
       node_join [node; child] = node +:+ "/" +:+ child).
Proof.
  split; [|split].
  - intros names. unfold node_join. f_equal. rewrite map_map.
    apply map_ext. intros s. apply rstrip_slash_app.
  - intros name t. apply rstrip_slash_no_slash.
  - intros node child Hn Hc. unfold node_join. simpl.
    rewrite !rstrip_slash_fixed by assumption. reflexivity.
Qed.

Example node_join_examples :
  node_join ["/services/"; "web"] = "/services/web"
  ∧ node_join ["/services"; "web//"] = "/services/web"
  ∧ node_join ["/"; "web"] = "/web"
  ∧ node_join ["/services"; "/web"] = "/services//web"
  ∧ node_join [] = "".
Proof. repeat split. Qed.

Lemma node_join_paths_witness :
  node_join ["/services"; "web"] = "/services" +:+ "/" +:+ "web".
Proof.
  apply (proj2 (proj2 node_join_paths) "/services" "web").
  - intros t Ht. apply (rstrip_slash_no_slash "/services" t). exact Ht.
  - intros t Ht. apply (rstrip_slash_no_slash "web" t). exact Ht.
Defined.

Lemma lstrip_slash_no_slash (s : string) :
  ∀ t, lstrip_slash s ≠ String slash t.
Proof.
  induction s as [|c rest IH]; intros t; [discriminate|].
  cbn [lstrip_slash]. destruct (Ascii.eqb_spec c slash) as [->|Hne].
  - apply IH.
  - intros [= -> _]. apply Hne. reflexivity.
Qed.

(** X17. The URL [_send] requests is [http://], the host, one slash and
    the path without its leading slashes: a path with one more slash in
    front gives the same URL, and what follows the slash after the host
    never starts with a slash. *)
Theorem send_url_leading_slashes (host path : string) :
  send_url host ("/" +:+ path) = send_url host path
  ∧ ∃ rest, send_url host path = "http://" +:+ host +:+ "/" +:+ rest
            ∧ ∀ t, rest ≠ "/" +:+ t.
Proof.
  split; [reflexivity|].
  exists (lstrip_slash path). split; [reflexivity|].
  intros t. apply lstrip_slash_no_slash.
Qed.

Lemma adapter_scheme (config : Config) (host : string) :
  default_hostname_adapter config = Ret host →
  ∃ rest, host = "http" +:+ rest.
Proof.
  unfold default_hostname_adapter.
  destruct (if py_eq_zero (dict_get config "sslPort" (VInt 0))
            then getitem config "port"
            else Ret (dict_get config "sslPort" (VInt 0))) as [port|e];
    [|discriminate].
  destruct (getitem config "address") as [address|e]; [|discriminate].
  destruct (negb (py_eq_zero (dict_get config "sslPort" (VInt 0))));
    intros [= <-]; eexists; reflexivity.
Qed.

(** X18. A hostname rendered by [default_hostname_adapter] starts with its
    scheme, and [_send] puts [http://] in front of the host it is given:
    the URL requested for a host that comes from a provider with the
    default adapter starts with [http://http]. *)
Theorem send_url_rendered_host (config : Config) (host path : string) :
  default_hostname_adapter config = Ret host →
  ∃ rest, send_url host path = "http://http" +:+ rest.
Proof.
  intros Ha. destruct (adapter_scheme config host Ha) as (rest & ->).
  eexists. unfold send_url. reflexivity.
Qed.

Lemma send_url_rendered_host_witness :
  ∃ rest, send_url "https://h1:8443" "/items" = "http://http" +:+ rest.
Proof.
  apply (send_url_rendered_host (scenario_config (Some (VInt 8443)))
           "https://h1:8443" "/items").
  vm_compute. reflexivity.
Defined.

(** ** Sessions *)

Lemma get_session_ok {S} (new_session : S) (hostname : string) (s : Sessions S) :
  sessions_ok s →
  sessions_ok (snd (get_session new_session hostname s))
  ∧ _sessions (snd (get_session new_session hostname s)) !! hostname
    = Some (fst (get_session new_session hostname s))
  ∧ ∀ h a, _sessions s !! h = Some a →
           _sessions (snd (get_session new_session hostname s)) !! h = Some a.
Proof.
  intros (Hb & Hi & Hl). unfold get_session, sessions_ok.
  destruct (_sessions s !! hostname) as [a|] eqn:Hh; simpl.
  - repeat split; auto.
  - split; [|split].
    + split; [|split].
      * intros h a. rewrite length_app. simpl.
        destruct (decide (hostname = h)) as [<-|Hne].
        -- rewrite lookup_insert_eq. intros [= <-]. lia.
        -- rewrite lookup_insert_ne by assumption. intros Ha.
           specialize (Hb h a Ha). lia.
      * intros h1 h2 a.
        destruct (decide (hostname = h1)) as [<-|Hne1];
          destruct (decide (hostname = h2)) as [<-|Hne2];
          rewrite ?lookup_insert_eq, ?lookup_insert_ne by assumption; auto.
        -- intros [= <-] Ha. specialize (Hb h2 _ Ha). lia.
        -- intros Ha [= <-]. specialize (Hb h1 _ Ha). lia.
        -- apply Hi.
      * rewrite length_app, map_size_insert_None by assumption. simpl. lia.
    + apply lookup_insert_eq.
    + intros h a Ha. rewrite lookup_insert_ne; [exact Ha|]. congruence.
Qed.

Lemma get_sessions_ok {S} (new_session : S) (hostnames : list string) :
  ∀ s : Sessions S,
    sessions_ok s →
    sessions_ok (get_sessions new_session hostnames s)
    ∧ (∀ h a, _sessions s !! h = Some a →
              _sessions (get_sessions new_session hostnames s) !! h = Some a)
    ∧ (∀ h, h ∈ hostnames →
            is_Some (_sessions (get_sessions new_session hostnames s) !! h)).
Proof.
  induction hostnames as [|h0 rest IH]; intros s Hok; simpl.
  - repeat split; auto; try apply Hok. intros h Hin. inversion Hin.
  - destruct (get_session_ok new_session h0 s Hok) as (Hok1 & Hh0 & Hkeep).
    destruct (IH _ Hok1) as (Hok2 & Hkeep2 & Hall).
    split; [exact Hok2|]. split.
    + intros h a Ha. apply Hkeep2, Hkeep, Ha.
    + intros h Hin. apply elem_of_cons in Hin as [->|Hin].
      * eexists. apply Hkeep2, Hh0.
      * apply Hall, Hin.
Qed.

(** X19. After any sequence of [get_session] calls on a new client, every
    hostname asked for has a session, two different hostnames never share a
    session, exactly one session object was made per hostname kept, and
    asking again for a kept hostname returns its session and makes
    nothing. *)
Theorem one_session_per_host {S} (new_session : S) (hostnames : list string) :
  let s := get_sessions new_session hostnames Sessions_init in
  (∀ h, h ∈ hostnames → is_Some (_sessions s !! h))
  ∧ (∀ h1 h2 a, _sessions s !! h1 = Some a → _sessions s !! h2 = Some a → h1 = h2)
  ∧ length (session_objects s) = size (_sessions s)
  ∧ (∀ h a, _sessions s !! h = Some a → get_session new_session h s = (a, s)).
Proof.
  assert (Hinit : sessions_ok (Sessions_init : Sessions S)).
  { split; [|split].
    - intros h a. unfold Sessions_init. simpl. rewrite lookup_empty. discriminate.
    - intros h1 h2 a. unfold Sessions_init. simpl. rewrite lookup_empty. discriminate.
    - reflexivity. }
  destruct (get_sessions_ok new_session hostnames _ Hinit) as ((Hb & Hi & Hl) & _ & Hall).
  cbv zeta. repeat split; auto.
  intros h a Ha. unfold get_session. rewrite Ha. reflexivity.
Qed.

Lemma one_session_per_host_witness :
  let s := get_sessions tt ["A"; "B"; "A"] Sessions_init in
  is_Some (_sessions s !! "B")
  ∧ get_session tt "A" s = (0%nat, s)
  ∧ length (session_objects s) = 2%nat.
Proof.
  intros s.
  destruct (one_session_per_host tt ["A"; "B"; "A"]) as (Hall & _ & Hlen & Hagain).
  split; [|split].
  - apply Hall. right. left.
  - apply Hagain. vm_compute. reflexivity.
  - vm_compute. reflexivity.
Defined.

(** ** The ZooKeeper backend *)

Section ZooKeeperProperties.
Context `{Runtime}.

Lemma zk_client_ok (z z1 : ZooKeeper) (en e1 : Env) (k : KazooClient) :
  zk_client z en = (Ret k, z1, e1) →
  _started z1 = true ∧ _client z1 = _client z ∧ k = _client z.
Proof.
  unfold zk_client. destruct (_started z) eqn:Hs.
  - intros [= <- <- <-]. auto.
  - destruct (kz_start (_client z) en) as [[u|e] e0]; [|discriminate].
    intros [= <- <- <-]. auto.
Qed.

Lemma zk_watch_node_ok (z z1 : ZooKeeper) (nm : string) (en e1 : Env)
    (w : KazooWatcher) :
  zk_watch_node z nm en = (Ret w, z1, e1) →
  _started z1 = true ∧ _client z1 = _client z.
Proof.
  unfold zk_watch_node.
  destruct (zk_client z en) as [[[k|e] z0] e0] eqn:Hc; [|discriminate].
  destruct (zk_client_ok _ _ _ _ _ Hc) as (Hs & Hk & _).
  destruct (kz_DataWatch k nm e0) as [[h|e] e2]; [|discriminate].
  intros [= <- <- <-]. auto.
Qed.

Lemma zk_client_started (z : ZooKeeper) (en : Env) :
  _started z = true → zk_client z en = (Ret (_client z), z, en).
Proof.
  unfold zk_client. intros ->. reflexivity.
Qed.

Lemma zk_watch_nodes_started (nm : string) (children : list string) :
  ∀ (z z1 : ZooKeeper) (en e1 : Env) (ws : list KazooWatcher),
    _started z = true →
    zk_watch_nodes z nm children en = (Ret ws, z1, e1) →
    z1 = z
    ∧ ∃ hs,
        kz_data_watches (_client z)
          (map (λ child, node_join [nm; child]) children) en = (Ret hs, e1)
        ∧ ws = map (λ h, mkKazooWatcher [inl h]) hs
        ∧ length hs = length children.
Proof.
  induction children as [|child rest IH]; intros z z1 en e1 ws Hs;
    cbn [zk_watch_nodes kz_data_watches map].
  - intros [= <- <- <-]. split; [reflexivity|]. exists []. auto.
  - unfold zk_watch_node. rewrite zk_client_started by assumption.
    destruct (kz_DataWatch (_client z) (node_join [nm; child]) en) as [[h|e] e0];
      [|discriminate].
    destruct (zk_watch_nodes z nm rest e0) as [[[ws0|e] z2] e2] eqn:Hr; [|discriminate].
    destruct (IH _ _ _ _ _ Hs Hr) as (-> & hs & Hd & -> & Hl).
    intros [= <- <- <-]. split; [reflexivity|].
    exists (h :: hs). rewrite Hd. cbn [map length]. auto.
Qed.

(** X20. When [watch_all] succeeds, the client has been started, once, if
    it was not; the returned watcher holds, in this order, the watcher of
    the [ChildrenWatch] that the client registered on the node and one
    watcher of a [DataWatch] for each child that the client's
    [get_children] listed after that, registered on [node_join] of the node
    and the child in the order of the list; the environment is the one the
    last of these calls left.  Calling [stop()] on the watcher raises
    [AttributeError], since it holds at least one watch. *)
Theorem watch_all_watchers (z z1 : ZooKeeper) (nm : string) (en e1 : Env)
    (w : KazooWatcher) :
  zk_watch_all z nm en = (Ret w, z1, e1) →
  let k := _client z in
  z1 = mkZooKeeper k true
  ∧ (∃ es h0 ea children eb hs,
       (if _started z then es = en else kz_start k en = (Ret tt, es))
       ∧ kz_ChildrenWatch k nm es = (Ret h0, ea)
       ∧ kz_get_children k nm ea = (Ret children, eb)
       ∧ kz_data_watches k (map (λ child, node_join [nm; child]) children) eb
         = (Ret hs, e1)
       ∧ watches_of w
         = inr (mkKazooWatcher [inl h0])
             :: map (λ h, inr (mkKazooWatcher [inl h])) hs
       ∧ length (watches_of w) = S (length children))
  ∧ KazooWatcher_stop w = Raise (AttributeError "_watch").
Proof.
  intros Hrun k. unfold zk_watch_all, zk_watch_children in Hrun.
  destruct (zk_client z en) as [[[k0|e] z0] es] eqn:Hc; [|discriminate].
  destruct (zk_client_ok _ _ _ _ _ Hc) as (Hs0 & Hk0 & ->).
  assert (Hz0 : z0 = mkZooKeeper k true).
  { destruct z0 as [c s]. cbn in Hs0, Hk0. subst. reflexivity. }
  assert (Hes : if _started z then es = en else kz_start k en = (Ret tt, es)).
  { unfold zk_client in Hc. destruct (_started z).
    - congruence.
    - fold k in Hc. destruct (kz_start k en) as [[[]|e] e0]; [|discriminate].
      congruence. }
  fold k in Hrun.
  destruct (kz_ChildrenWatch k nm es) as [[h0|e] ea] eqn:Hcw; [|discriminate].
  unfold zk_get_children in Hrun. rewrite zk_client_started in Hrun by assumption.
  rewrite Hk0 in Hrun. fold k in Hrun.
  destruct (kz_get_children k nm ea) as [[children|e] eb] eqn:Hg; [|discriminate].
  destruct (zk_watch_nodes z0 nm children eb) as [[[ws|e] z3] e3] eqn:Hn; [|discriminate].
  destruct (zk_watch_nodes_started _ _ _ _ _ _ _ Hs0 Hn) as (-> & hs & Hd & -> & Hl).
  rewrite Hk0 in Hd. fold k in Hd.
  injection Hrun as <- <- <-.
  split; [exact Hz0|]. split; [|reflexivity].
  exists es, h0, ea, children, eb, hs.
  split; [exact Hes|]. split; [exact Hcw|]. split; [exact Hg|]. split; [exact Hd|].
  cbn [watches_of map]. rewrite map_map. split; [reflexivity|].
  cbn [length]. rewrite length_map, Hl. reflexivity.
Qed.

End ZooKeeperProperties.

Lemma watch_all_watchers_witness :
  let k := sim_kazoo in
  let w := mkKazooWatcher [inr (mkKazooWatcher [inl 0%nat]);
                           inr (mkKazooWatcher [inl 1%nat]);
                           inr (mkKazooWatcher [inl 2%nat])] in
  zk_watch_all (mkZooKeeper k false) "/svc" (mkSimEnv 0 0 : @Env sim_runtime)
  = (Ret w, mkZooKeeper k true, mkSimEnv 3 3)
  ∧ (∃ es h0 ea children eb hs,
       kz_start k (mkSimEnv 0 0) = (Ret tt, es)
       ∧ kz_ChildrenWatch k "/svc" es = (Ret h0, ea)
       ∧ kz_get_children k "/svc" ea = (Ret children, eb)
       ∧ kz_data_watches k (map (λ child, node_join ["/svc"; child]) children) eb
         = (Ret hs, mkSimEnv 3 3)
       ∧ watches_of w
         = inr (mkKazooWatcher [inl h0])
             :: map (λ h, inr (mkKazooWatcher [inl h])) hs
       ∧ length (watches_of w) = S (length children))
  ∧ KazooWatcher_stop w = Raise (AttributeError "_watch").
Proof.
  intros k w.
  assert (Hrun : zk_watch_all (mkZooKeeper k false) "/svc"
                   (mkSimEnv 0 0 : @Env sim_runtime)
                 = (Ret w, mkZooKeeper k true, mkSimEnv 3 3)).
  { vm_compute. reflexivity. }
  split; [exact Hrun|].
  exact (proj2 (watch_all_watchers _ _ _ _ _ _ Hrun)).
Defined.
